(** * Course ranking of esco_kg_streamlit.py

    A shallow embedding of the scoring and ranking functions of
    [esco_kg_streamlit.py] (calculate_skill_match,
    calculate_course_match_score, get_coursera_courses,
    get_course_recommendations_cached) together with the part of Python's
    [difflib.SequenceMatcher] that [ratio()] runs through, taken from
    CPython's [Lib/difflib.py].

    Conventions of the embedding.
    - A Python [str] is a [string] over the first 256 code points; [len],
      indexing and iteration go through its list of characters, and
      [str.lower] is the one of these code points.
    - A Python [float] is a binary64 number, carried as the rational of [Q]
      that it denotes.  Every operation of the program on floats (the
      products and the sum of the weighted score, the quotient of the ratio,
      the running total) is the exact operation followed by rounding to the
      nearest number with a mantissa of 53 bits, ties to the even mantissa;
      the literals 0.7 and 0.3 are the roundings of 7/10 and 3/10, and an
      [int] that meets a float is rounded in the same way.  The exponent
      range is not bounded: the values of the program stay far from both of
      its ends.  Comparisons are exact.  The integer [0] that [total_score]
      starts from is the rational 0.
    - JSON payloads and other dynamically typed values are [pyval]; a call
      that can raise returns a [res].
    - The knowledge graph and the Coursera endpoint are inputs: the outcome
      of [get_missing_skills] and the answer to each query.  The caches of
      [st.cache_data] do not change what a call returns and are left out. *)

From Stdlib Require Import String Ascii.
From Stdlib Require Import List ZArith QArith Qround Qpower Lia Bool Arith.
From Stdlib Require Import Permutation Lqa.
Import ListNotations.

Set Implicit Arguments.
Set Warnings "-register-all".

(** ** Floats: binary64, round to nearest, ties to even *)

Module binary64.

(** [floor (log2 q)] for a positive rational. *)
Definition ilog2 (q : Q) : Z :=
  let k := (Z.log2 (Qnum q) - Z.log2 (Zpos (Qden q)))%Z in
  if Qle_bool (2 ^ k) q then k else (k - 1)%Z.

(** Round to the nearest integer, ties to the even one. *)
Definition rne (s : Q) : Z :=
  let f := Qfloor s in
  match Qcompare (s - inject_Z f) (1 # 2) with
  | Lt => f
  | Gt => (f + 1)%Z
  | Eq => if Z.even f then f else (f + 1)%Z
  end.

(** Round a positive rational to 53 significant bits. *)
Definition rnd_pos (q : Q) : Q :=
  let e := (ilog2 q - 52)%Z in
  Qred (inject_Z (rne (q / 2 ^ e)) * 2 ^ e).

(** The binary64 number nearest to [q], ties to even. *)
Definition rnd (q : Q) : Q :=
  match Qnum q with
  | Z0 => 0
  | Zpos _ => rnd_pos q
  | Zneg _ => - rnd_pos (- q)
  end.

(** [x + y], [x * y] and [x / y] on floats. *)
Definition fadd (x y : Q) : Q := rnd (x + y).
Definition fmul (x y : Q) : Q := rnd (x * y).
Definition fdiv (x y : Q) : Q := rnd (x / y).

(** The float that an [int] becomes when it meets a float. *)
Definition of_int (n : Z) : Q := rnd (inject_Z n).

(** The literals [0.7] and [0.3]. *)
Definition float_07 : Q := rnd (7 # 10).
Definition float_03 : Q := rnd (3 # 10).

End binary64.

(** ** difflib.SequenceMatcher (isjunk=None, autojunk=True) *)

Module difflib.

Local Open Scope nat_scope.

(** Elements of the two sequences: the characters of a [str]. *)
Definition elt := ascii.

(** [a[i] == b[j]] for indices inside both sequences. *)
Definition same_at (a b : list elt) (i j : nat) : bool :=
  match nth_error a i, nth_error b j with
  | Some x, Some y => Ascii.eqb x y
  | _, _ => false
  end.

(** The index list that [__chain_b] stores under [x]:
    [for i, elt in enumerate(b): b2j.setdefault(elt, []).append(i)]. *)
Fixpoint indices_from (x : elt) (b : list elt) (i : nat) : list nat :=
  match b with
  | [] => []
  | y :: b' =>
      if Ascii.eqb x y then i :: indices_from x b' (S i)
      else indices_from x b' (S i)
  end.

Definition indices (x : elt) (b : list elt) : list nat := indices_from x b 0.

(** [popular]: with autojunk and [n >= 200], an element whose index list is
    longer than [n // 100 + 1] is deleted from [b2j]. *)
Definition popular (b : list elt) (x : elt) : bool :=
  (200 <=? length b) && (length b / 100 + 1 <? length (indices x b)).

(** [b2j.get(x, nothing)] after [__chain_b]; [isjunk] is [None], so the junk
    set stays empty and only popular elements are removed. *)
Definition b2j_get (b : list elt) (x : elt) : list nat :=
  if popular b x then [] else indices x b.

(** State of the search: [(besti, bestj, bestsize)]. *)
Definition best := (nat * nat * nat)%type.

(** A [j2len] dictionary, read only through [j2len.get(j-1, 0)]. *)
Definition j2len_t := nat -> nat.

Definition j2len_empty : j2len_t := fun _ => 0.

Definition j2len_set (m : j2len_t) (j k : nat) : j2len_t :=
  fun j' => if Nat.eqb j' j then k else m j'.

(** [j2len.get(j-1, 0)]; key [-1] is never present. *)
Definition j2lenget (m : j2len_t) (j : nat) : nat :=
  match j with
  | 0 => 0
  | S j' => m j'
  end.

(** The inner loop [for j in b2j.get(a[i], nothing)] with its [continue]
    and [break]. *)
Fixpoint inner_loop (blo bhi i : nat) (j2len : j2len_t) (js : list nat)
    (newj2len : j2len_t) (bst : best) : j2len_t * best :=
  match js with
  | [] => (newj2len, bst)
  | j :: js' =>
      if j <? blo then inner_loop blo bhi i j2len js' newj2len bst
      else if bhi <=? j then (newj2len, bst)
      else
        let k := j2lenget j2len j + 1 in
        let newj2len' := j2len_set newj2len j k in
        let '(_, _, bestsize) := bst in
        let bst' := if bestsize <? k then (i + 1 - k, j + 1 - k, k) else bst in
        inner_loop blo bhi i j2len js' newj2len' bst'
  end.

(** One turn of [for i in range(alo, ahi)]. *)
Definition outer_step (a b : list elt) (blo bhi : nat)
    (st : j2len_t * best) (i : nat) : j2len_t * best :=
  let '(j2len, bst) := st in
  let js := match nth_error a i with
            | Some x => b2j_get b x
            | None => []
            end in
  inner_loop blo bhi i j2len js j2len_empty bst.

Definition outer_loop (a b : list elt) (alo ahi blo bhi : nat) : best :=
  snd (fold_left (outer_step a b blo bhi) (seq alo (ahi - alo))
         (j2len_empty, (alo, blo, 0))).

(** First [while]: extend the match to the left over equal elements. *)
Fixpoint extend_left (a b : list elt) (alo blo besti bestj bestsize : nat)
    : best :=
  match besti, bestj with
  | S i', S j' =>
      if (alo <? besti) && (blo <? bestj) && same_at a b i' j'
      then extend_left a b alo blo i' j' (S bestsize)
      else (besti, bestj, bestsize)
  | _, _ => (besti, bestj, bestsize)
  end.

(** Second [while]: extend to the right; [fuel] counts the turns that the
    guard [besti+bestsize < ahi] leaves. *)
Fixpoint extend_right (a b : list elt) (ahi bhi besti bestj bestsize : nat)
    (fuel : nat) : best :=
  match fuel with
  | 0 => (besti, bestj, bestsize)
  | S fuel' =>
      if (besti + bestsize <? ahi) && (bestj + bestsize <? bhi)
         && same_at a b (besti + bestsize) (bestj + bestsize)
      then extend_right a b ahi bhi besti bestj (S bestsize) fuel'
      else (besti, bestj, bestsize)
  end.

(** [find_longest_match(alo, ahi, blo, bhi)].  The last two [while] loops of
    the library only run over junk elements and the junk set is empty. *)
Definition find_longest_match (a b : list elt) (alo ahi blo bhi : nat)
    : best :=
  let '(besti, bestj, bestsize) := outer_loop a b alo ahi blo bhi in
  let '(besti, bestj, bestsize) :=
    extend_left a b alo blo besti bestj bestsize in
  extend_right a b ahi bhi besti bestj bestsize (ahi - (besti + bestsize)).

(** A pending rectangle [(alo, ahi, blo, bhi)] of the work queue. *)
Definition rect := (nat * nat * nat * nat)%type.

(** What one turn of [while queue] pushes; [queue.pop()] takes the last
    element, so the queue is kept with its top first. *)
Definition pushes (r : rect) (x : best) : list rect :=
  let '(alo, ahi, blo, bhi) := r in
  let '(i, j, k) := x in
  (if (i + k <? ahi) && (j + k <? bhi) then [(i + k, ahi, j + k, bhi)]
   else [])
  ++ (if (alo <? i) && (blo <? j) then [(alo, i, blo, j)] else []).

Fixpoint blocks_loop (a b : list elt) (fuel : nat) (queue : list rect)
    (matching_blocks : list best) : list best :=
  match fuel, queue with
  | S fuel', r :: queue' =>
      let '(alo, ahi, blo, bhi) := r in
      let x := find_longest_match a b alo ahi blo bhi in
      let '(_, _, k) := x in
      if Nat.eqb k 0 then blocks_loop a b fuel' queue' matching_blocks
      else blocks_loop a b fuel' (pushes r x ++ queue')
             (matching_blocks ++ [x])
  | _, _ => matching_blocks
  end.

(** Tuple comparison [x <= y] of [matching_blocks.sort()]. *)
Definition best_leb (x y : best) : bool :=
  let '(i1, j1, k1) := x in
  let '(i2, j2, k2) := y in
  (i1 <? i2) || ((i1 =? i2) && ((j1 <? j2) || ((j1 =? j2) && (k1 <=? k2)))).

Fixpoint insert_block (x : best) (l : list best) : list best :=
  match l with
  | [] => [x]
  | y :: l' => if best_leb x y then x :: l else y :: insert_block x l'
  end.

Definition sort_blocks (l : list best) : list best :=
  fold_right insert_block [] l.

(** The loop that merges adjacent blocks, with [(i1, j1, k1)] carried. *)
Fixpoint collapse (cur : best) (l : list best) (non_adjacent : list best)
    : list best :=
  let '(i1, j1, k1) := cur in
  match l with
  | [] => if Nat.eqb k1 0 then non_adjacent else non_adjacent ++ [cur]
  | (i2, j2, k2) :: l' =>
      if (i1 + k1 =? i2) && (j1 + k1 =? j2)
      then collapse (i1, j1, k1 + k2) l' non_adjacent
      else collapse (i2, j2, k2) l'
             (if Nat.eqb k1 0 then non_adjacent else non_adjacent ++ [cur])
  end.

(** Turns the queue needs at most: each one removes a rectangle and the
    rectangles it pushes are narrower by the block found. *)
Definition queue_fuel (la : nat) : nat := 2 * la + 1.

Definition get_matching_blocks (a b : list elt) : list best :=
  let la := length a in
  let lb := length b in
  let matching_blocks :=
    blocks_loop a b (queue_fuel la) [(0, la, 0, lb)] [] in
  collapse (0, 0, 0) (sort_blocks matching_blocks) [] ++ [(la, lb, 0)].

(** [sum(triple[-1] for triple in self.get_matching_blocks())]. *)
Definition matches (a b : list elt) : nat :=
  fold_left (fun s (x : best) => s + snd x) (get_matching_blocks a b) 0.

(** [_calculate_ratio(matches, length)]: [2.0 * matches / length] when
    [length] is not 0, and [1.0] otherwise. *)
Definition _calculate_ratio (matches length : nat) : Q :=
  if Nat.eqb length 0 then 1%Q
  else binary64.fdiv
         (binary64.fmul 2%Q (binary64.of_int (Z.of_nat matches)))
         (binary64.of_int (Z.of_nat length)).

(** [SequenceMatcher(None, a, b).ratio()]. *)
Definition ratio (a b : string) : Q :=
  let a' := list_ascii_of_string a in
  let b' := list_ascii_of_string b in
  _calculate_ratio (matches a' b') (length a' + length b').

End difflib.

(** ** Invariants of the search for matching blocks *)

Module difflib_inv.
Import difflib.

Local Open Scope nat_scope.

(** A block inside the rectangle it was searched in. *)
Definition in_box (alo ahi blo bhi : nat) (x : best) : Prop :=
  let '(i, j, k) := x in
  alo <= i /\ i + k <= ahi /\ blo <= j /\ j + k <= bhi.

(** What row [i] of the search knows about the row before it. *)
Definition row_bound (alo blo i : nat) (j2len : j2len_t) : Prop :=
  forall j, j2len j <= i - alo /\ j2len j <= j + 1 - blo.

(** The matched length of a list of blocks. *)
Definition total (l : list best) : nat :=
  fold_left (fun s (x : best) => s + snd x) l 0.

(** A rectangle with its bounds in order. *)
Definition valid_rect (r : rect) : Prop :=
  let '(alo, ahi, blo, bhi) := r in alo <= ahi /\ blo <= bhi.

(** Width of a rectangle in [a] and in [b]. *)
Definition wa (r : rect) : nat := let '(alo, ahi, _, _) := r in ahi - alo.
Definition wb (r : rect) : nat := let '(_, _, blo, bhi) := r in bhi - blo.

(** A measure summed over the queue. *)
Definition sum_of (w : rect -> nat) (q : list rect) : nat :=
  fold_right (fun r s => w r + s) 0 q.

(** The turns a queue can still take. *)
Definition turns (q : list rect) : nat := sum_of (fun r => 2 * wa r + 1) q.

(** Position [i] of [s] holds an element that [__chain_b] keeps in [b2j]. *)
Definition kept (s : list elt) (i : nat) : bool :=
  match nth_error s i with
  | Some x => negb (popular s x)
  | None => false
  end.

(** Length of the run of kept elements that ends just before position
    [i]. *)
Fixpoint run (s : list elt) (i : nat) : nat :=
  match i with
  | 0 => 0
  | S i' => if kept s i' then run s i' + 1 else 0
  end.

(** Row [i] starts from a [j2len] bounded by the runs, exact on the
    diagonal. *)
Definition prev_row (s : list elt) (i : nat) (j2len : j2len_t) : Prop :=
  (forall j, j2lenget j2len j <= run s i /\ j2lenget j2len j <= run s j)
  /\ j2lenget j2len i = run s i.

(** The best block lies on the diagonal and is as long as every run that
    ends before position [i]. *)
Definition diag_best (s : list elt) (i : nat) (bst : best) : Prop :=
  let '(besti, bestj, bestsize) := bst in
  besti = bestj /\ forall i', i' <= i -> run s i' <= bestsize.

End difflib_inv.

(** ** Python values, exceptions *)

Inductive pyval : Type :=
| PyNone
| PyBool (b : bool)
| PyInt (n : Z)
| PyFloat (x : Q)
| PyStr (s : string)
| PyList (l : list pyval)
| PyDict (d : list (string * pyval)).

Inductive exn : Type :=
| AttributeError
| TypeError
| KeyError
| OtherError (name : string).

Inductive res (A : Type) : Type :=
| Ok (a : A)
| Raise (e : exn).

Arguments Ok {A} a.
Arguments Raise {A} e.

Definition bind {A B : Type} (m : res A) (k : A -> res B) : res B :=
  match m with
  | Ok a => k a
  | Raise e => Raise e
  end.

Notation "x <- m ;; k" := (bind m (fun x => k))
  (at level 61, m at next level, right associativity).

Definition raises {A : Type} (m : res A) : bool :=
  match m with
  | Ok _ => false
  | Raise _ => true
  end.

Local Open Scope string_scope.
Local Open Scope list_scope.

(** [bool(v)]. *)
Definition truthy (v : pyval) : bool :=
  match v with
  | PyNone => false
  | PyBool b => b
  | PyInt n => negb (n =? 0)%Z
  | PyFloat x => negb (Qeq_bool x 0)
  | PyStr s => negb (String.eqb s "")
  | PyList l => match l with [] => false | _ => true end
  | PyDict d => match d with [] => false | _ => true end
  end.

Definition is_str (s : string) (v : pyval) : bool :=
  match v with
  | PyStr t => String.eqb s t
  | _ => false
  end.

Fixpoint dict_get (d : list (string * pyval)) (key : string) : option pyval :=
  match d with
  | [] => None
  | (k, v) :: d' => if String.eqb key k then Some v else dict_get d' key
  end.

Definition is_some {A : Type} (o : option A) : bool :=
  match o with
  | Some _ => true
  | None => false
  end.

(** [key in v] for a [str] key: a key of a dict, an element of a list, a
    substring of a str, and a [TypeError] on what is not a container. *)
Definition py_in (key : string) (v : pyval) : res bool :=
  match v with
  | PyDict d => Ok (is_some (dict_get d key))
  | PyList l => Ok (existsb (is_str key) l)
  | PyStr s => Ok (is_some (index 0 key s))
  | _ => Raise TypeError
  end.

(** [v[key]] for a [str] key. *)
Definition py_getitem (v : pyval) (key : string) : res pyval :=
  match v with
  | PyDict d =>
      match dict_get d key with
      | Some x => Ok x
      | None => Raise KeyError
      end
  | _ => Raise TypeError
  end.

Fixpoint chars (s : string) : list pyval :=
  match s with
  | EmptyString => []
  | String c s' => PyStr (String c EmptyString) :: chars s'
  end.

(** The elements a [for] loop over [v] visits. *)
Definition py_iter (v : pyval) : res (list pyval) :=
  match v with
  | PyList l => Ok l
  | PyStr s => Ok (chars s)
  | PyDict d => Ok (map (fun kv => PyStr (fst kv)) d)
  | _ => Raise TypeError
  end.

(** [v.get(key, default)]: only a dict has the method. *)
Definition py_get (v : pyval) (key : string) (default : pyval) : res pyval :=
  match v with
  | PyDict d =>
      match dict_get d key with
      | Some x => Ok x
      | None => Ok default
      end
  | _ => Raise AttributeError
  end.

(** [str.lower] on one character of the first 256 code points. *)
Definition lower_char (c : ascii) : ascii :=
  let n := nat_of_ascii c in
  if ((65 <=? n) && (n <=? 90))%nat
     || ((192 <=? n) && (n <=? 222) && negb (n =? 215))%nat
  then ascii_of_nat (n + 32)
  else c.

Fixpoint lower (s : string) : string :=
  match s with
  | EmptyString => EmptyString
  | String c s' => String (lower_char c) (lower s')
  end.

(** [v.lower()]: only a str has the method. *)
Definition py_lower (v : pyval) : res string :=
  match v with
  | PyStr s => Ok (lower s)
  | _ => Raise AttributeError
  end.

(** ** The missing skills handed over by the knowledge graph *)

Record missing_skill : Type := {
  skill_label : string;
  occupation_skill_level : string;
  experience_level : option string
}.

(** ** calculate_skill_match *)

Definition calculate_skill_match (skill1 skill2 : pyval) : res Q :=
  s1 <- py_lower skill1 ;;
  s2 <- py_lower skill2 ;;
  Ok (difflib.ratio s1 s2).

(** ** calculate_course_match_score *)

(** An entry of [matched_skills]. *)
Record matched_skill : Type := {
  skill : string;
  score : Q;
  level : string
}.

(** What the function returns: the integer [0] of its guard, or the dict
    with ['total_score'] and ['matched_skills']. *)
Inductive match_result : Type :=
| Zero
| Scored (total_score : Q) (matched_skills : list matched_skill).

(** [(name_match * 0.7) + (desc_match * 0.3)]. *)
Definition skill_score_of (name_match desc_match : Q) : Q :=
  binary64.fadd (binary64.fmul name_match binary64.float_07)
                (binary64.fmul desc_match binary64.float_03).

(** [2 if skill['occupation_skill_level'] == 'essential' else 1]. *)
Definition level_weight (lvl : string) : Q :=
  if String.eqb lvl "essential" then 2 else 1.

(** Body of [for skill in missing_skills]. *)
Definition skill_step (course_name course_description : string)
    (st : Q * list matched_skill) (sk : missing_skill)
    : res (Q * list matched_skill) :=
  let '(total_score, matched_skills) := st in
  let skill_label := lower (skill_label sk) in
  name_match <- calculate_skill_match (PyStr skill_label) (PyStr course_name) ;;
  desc_match <-
    calculate_skill_match (PyStr skill_label) (PyStr course_description) ;;
  let skill_score := skill_score_of name_match desc_match in
  if Qlt_le_dec binary64.float_03 skill_score
  then Ok (binary64.fadd total_score
             (binary64.fmul skill_score
                (level_weight (occupation_skill_level sk))),
           matched_skills
           ++ [ {| skill := skill_label;
                   score := skill_score;
                   level := occupation_skill_level sk |} ])
  else Ok (total_score, matched_skills).

(** A [for] loop whose body can raise. *)
Fixpoint for_each {S X : Type} (body : S -> X -> res S) (xs : list X) (st : S)
    : res S :=
  match xs with
  | [] => Ok st
  | x :: xs' => st' <- body st x ;; for_each body xs' st'
  end.

(** Body of [for element in course['elements']]. *)
Definition element_step (missing_skills : list missing_skill)
    (st : Q * list matched_skill) (element : pyval)
    : res (Q * list matched_skill) :=
  name <- py_get element "name" (PyStr "") ;;
  course_name <- py_lower name ;;
  description <- py_get element "description" (PyStr "") ;;
  course_description <- py_lower description ;;
  for_each (skill_step course_name course_description) missing_skills st.

Definition calculate_course_match_score (course : pyval)
    (missing_skills : list missing_skill) : res match_result :=
  absent <- (if negb (truthy course) then Ok true
             else has <- py_in "elements" course ;; Ok (negb has)) ;;
  if absent : bool then Ok Zero
  else
    elements_v <- py_getitem course "elements" ;;
    elements <- py_iter elements_v ;;
    st <- for_each (element_step missing_skills) elements (0, []) ;;
    Ok (Scored (fst st) (snd st)).

(** ** get_coursera_courses *)

(** The Coursera endpoint: what [requests.get(...)], [raise_for_status()]
    and [response.json()] come to for a query, a payload or an exception. *)
Definition endpoint := string -> res pyval.

(** The [try]/[except Exception] turns every failure into [None]. *)
Definition get_coursera_courses (net : endpoint) (skill : string) : pyval :=
  match net skill with
  | Ok payload => payload
  | Raise _ => PyNone
  end.

(** ** get_course_recommendations_cached *)

(** An entry of [all_courses]; [match_score] keeps the two fields of the
    dict returned by the scoring function. *)
Record recommendation : Type := {
  course : pyval;
  match_score : Q * list matched_skill;
  target_skill_level : string;
  suitable_for_experience : string
}.

Definition rec_score (r : recommendation) : Q := fst (match_score r).

(** Body of [for course in courses['elements']]. *)
Definition course_step (missing_skills : list missing_skill)
    (sk : missing_skill) (all_courses : list recommendation) (c : pyval)
    : res (list recommendation) :=
  r <- calculate_course_match_score (PyDict [("elements", PyList [c])])
         missing_skills ;;
  match r with
  | Zero => Raise TypeError
  | Scored total_score matched_skills =>
      if Qlt_le_dec 0 total_score
      then Ok (all_courses
               ++ [ {| course := c;
                       match_score := (total_score, matched_skills);
                       target_skill_level := occupation_skill_level sk;
                       suitable_for_experience :=
                         match experience_level sk with
                         | Some e => e
                         | None => "Beginner"
                         end |} ])
      else Ok all_courses
  end.

(** What the body of [for skill in missing_skills] does with the fetched
    [courses]. *)
Definition courses_step (missing_skills : list missing_skill)
    (sk : missing_skill) (courses : pyval)
    (all_courses : list recommendation) : res (list recommendation) :=
  go <- (if truthy courses then py_in "elements" courses else Ok false) ;;
  if go : bool then
    elements_v <- py_getitem courses "elements" ;;
    elements <- py_iter elements_v ;;
    for_each (course_step missing_skills sk) elements all_courses
  else Ok all_courses.

(** The loop over the missing skills.  The second component is the list of
    queries sent to [get_coursera_courses] so far, oldest first. *)
Fixpoint fetch_loop (net : endpoint) (missing_skills todo : list missing_skill)
    (all_courses : list recommendation) (calls : list string)
    : res (list recommendation) * list string :=
  match todo with
  | [] => (Ok all_courses, calls)
  | sk :: todo' =>
      let courses := get_coursera_courses net (skill_label sk) in
      let calls' := calls ++ [skill_label sk] in
      match courses_step missing_skills sk courses all_courses with
      | Ok all_courses' => fetch_loop net missing_skills todo' all_courses' calls'
      | Raise e => (Raise e, calls')
      end
  end.

(** [list.sort(key=..., reverse=True)]: a stable sort, so entries with
    equal keys keep their order; [x], which stood before the entries of
    [l], passes only the entries with a greater key.  The keys are the
    float totals of the scoring function, compared exactly. *)
Fixpoint insert_desc (x : recommendation) (l : list recommendation)
    : list recommendation :=
  match l with
  | [] => [x]
  | y :: l' =>
      if Qlt_le_dec (rec_score x) (rec_score y) then y :: insert_desc x l'
      else x :: l
  end.

Definition sort_desc (l : list recommendation) : list recommendation :=
  fold_right insert_desc [] l.

(** [l[:k]]: a negative [k] counts from the end. *)
Definition slice_to {A : Type} (l : list A) (k : Z) : list A :=
  if (k <? 0)%Z then firstn (Z.to_nat (Z.of_nat (length l) + k)) l
  else firstn (Z.to_nat k) l.

(** [missing] is what [_kg.get_missing_skills(employee_id,
    target_occupation)] comes to: a list or an exception. *)
Definition get_course_recommendations_cached
    (missing : res (list missing_skill)) (net : endpoint) (top_k : Z)
    : res (list recommendation) * list string :=
  match missing with
  | Raise e => (Raise e, [])
  | Ok missing_skills =>
      match missing_skills with
      | [] => (Ok [], [])
      | _ =>
          match fetch_loop net missing_skills missing_skills [] [] with
          | (Ok all_courses, calls) =>
              (Ok (slice_to (sort_desc all_courses) top_k), calls)
          | (Raise e, calls) => (Raise e, calls)
          end
      end
  end.

(** ** Notions used in the statements *)

(** The similarity of two texts as [calculate_skill_match] computes it. *)
Definition similarity (a b : string) : Q := difflib.ratio (lower a) (lower b).

(** The weighted score of a missing skill against the lower-cased name and
    description of a course element. *)
Definition combined (sk : missing_skill) (course_name course_description : string)
    : Q :=
  skill_score_of (similarity (lower (skill_label sk)) course_name)
                 (similarity (lower (skill_label sk)) course_description).

(** The trace entry that a matched skill leaves. *)
Definition entry_of (sk : missing_skill) (course_name course_description : string)
    : matched_skill :=
  {| skill := lower (skill_label sk);
     score := combined sk course_name course_description;
     level := occupation_skill_level sk |}.

(** The lower-cased name and description read off a course element. *)
Definition element_texts (element : pyval) : res (string * string) :=
  name <- py_get element "name" (PyStr "") ;;
  course_name <- py_lower name ;;
  description <- py_get element "description" (PyStr "") ;;
  course_description <- py_lower description ;;
  Ok (course_name, course_description).

(** The dict the aggregator wraps a fetched course in. *)
Definition wrap (c : pyval) : pyval := PyDict [("elements", PyList [c])].

(** Sum over a trace of each entry's score times the weight of its level,
    added up from 0 in the order of the trace, in the arithmetic of the
    program. *)
Definition sum_trace (m : list matched_skill) : Q :=
  fold_left
    (fun acc e =>
       binary64.fadd acc (binary64.fmul (score e) (level_weight (level e))))
    m 0.

(** Adjacent entries in non-increasing order of total score. *)
Inductive sorted_desc : list recommendation -> Prop :=
| sorted_nil : sorted_desc []
| sorted_one : forall x, sorted_desc [x]
| sorted_cons : forall x y l,
    rec_score y <= rec_score x -> sorted_desc (y :: l) ->
    sorted_desc (x :: y :: l).

(** The entries of [l] whose total score is [q], in the order of [l]. *)
Definition with_score (q : Q) (l : list recommendation) : list recommendation :=
  filter (fun r => Qeq_bool (rec_score r) q) l.

(** A fetched payload with nothing to score: [None], an empty container, a
    dict without ['elements'] or with an empty list under it. *)
Definition no_items (courses : pyval) : bool :=
  match courses with
  | PyNone => true
  | PyDict d =>
      match dict_get d "elements" with
      | None => true
      | Some (PyList []) => true
      | Some _ => false
      end
  | _ => negb (truthy courses)
  end.

(** A course element as the data model has it: a dict whose name and
    description, where present, are strings. *)
Definition str_or_absent (o : option pyval) : bool :=
  match o with
  | None => true
  | Some (PyStr _) => true
  | Some _ => false
  end.

Definition wf_item (c : pyval) : bool :=
  match c with
  | PyDict d =>
      str_or_absent (dict_get d "name")
      && str_or_absent (dict_get d "description")
  | _ => false
  end.

(** A payload of the content source as the data model has it. *)
Definition wf_payload (courses : pyval) : bool :=
  match courses with
  | PyNone => true
  | PyDict d =>
      match dict_get d "elements" with
      | None => true
      | Some (PyList items) => forallb wf_item items
      | Some _ => false
      end
  | _ => false
  end.

Definition wf_endpoint (net : endpoint) : Prop :=
  forall q, match net q with
            | Ok courses => wf_payload courses = true
            | Raise _ => True
            end.

(** The missing skills whose fetch brings something to score. *)
Definition fetch_fails (net : endpoint) (sk : missing_skill) : bool :=
  no_items (get_coursera_courses net (skill_label sk)).

(** The invariant of the two loops of the scoring function. *)
Definition trace_inv (st : Q * list matched_skill) : Prop :=
  fst st == sum_trace (snd st) /\ Forall (fun e => 3 # 10 < score e) (snd st).

(** The course and the missing skill of the examples. *)
Definition example_skill : missing_skill :=
  {| skill_label := "Data Visualization";
     occupation_skill_level := "essential";
     experience_level := None |}.

Definition example_course : pyval :=
  PyDict [("name", PyStr "Data Visualization with Python");
          ("description", PyStr "Intro to charts")].

Definition example_net : endpoint :=
  fun _ => Ok (PyDict [("elements", PyList [example_course; example_course])]).

(** A skill and a course whose weighted score rounds to a float just above
    0.3. *)
Definition sql_skill : missing_skill :=
  {| skill_label := "SQL";
     occupation_skill_level := "essential";
     experience_level := None |}.

Definition sql_course : pyval :=
  PyDict [("name", PyStr "SQL for Data Scientists");
          ("description", PyStr "Learn SQL!")].

(** A skill and two courses whose weighted scores are both 1/2 in
    fractions and differ as floats. *)
Definition tie_skill : missing_skill :=
  {| skill_label := "abx";
     occupation_skill_level := "optional";
     experience_level := None |}.

Definition tie_course_1 : pyval :=
  PyDict [("name", PyStr "aaab"); ("description", PyStr "aaa")].

Definition tie_course_2 : pyval :=
  PyDict [("name", PyStr "a"); ("description", PyStr "a")].

Definition tie_net : endpoint :=
  fun _ => Ok (PyDict [("elements", PyList [tie_course_1; tie_course_2])]).

(** ** Notions used in the further properties *)

(** Whether a missing skill clears the threshold against the texts of a
    course element. *)
Definition matched (cn cd : string) (sk : missing_skill) : bool :=
  if Qlt_le_dec binary64.float_03 (combined sk cn cd) then true else false.

(** A bound kept by the loops of the scoring function: no score above 1,
    and a total of at most twice the number of trace entries; the total
    also stays under 2^54, where adding 2 stops changing a float. *)
Definition bound_inv (st : Q * list matched_skill) : Prop :=
  Forall (fun e => score e <= 1) (snd st)
  /\ fst st <= 2 * inject_Z (Z.of_nat (length (snd st)))
  /\ fst st <= inject_Z (2 ^ 54).

(** The courses that the body of the loop over the missing skills walks
    through for one skill: the elements of the fetched payload, none when
    the test [courses and 'elements' in courses] fails. *)
Definition fetched (net : endpoint) (sk : missing_skill) : list pyval :=
  let courses := get_coursera_courses net (skill_label sk) in
  if truthy courses then
    match py_in "elements" courses with
    | Ok true =>
        match py_getitem courses "elements" with
        | Ok v => match py_iter v with Ok l => l | Raise _ => [] end
        | Raise _ => []
        end
    | _ => []
    end
  else [].

(** What one fetched course adds to [all_courses]: its entry when the
    total score is above 0. *)
Definition scored (missing_skills : list missing_skill) (sk : missing_skill)
    (c : pyval) : list recommendation :=
  match calculate_course_match_score (wrap c) missing_skills with
  | Ok (Scored total_score matched_skills) =>
      if Qlt_le_dec 0 total_score
      then [ {| course := c;
                match_score := (total_score, matched_skills);
                target_skill_level := occupation_skill_level sk;
                suitable_for_experience :=
                  match experience_level sk with
                  | Some e => e
                  | None => "Beginner"
                  end |} ]
      else []
  | _ => []
  end.

(** [c['name']] as the course tab reads it for the title of an entry. *)
Definition display_name (r : recommendation) : res pyval :=
  py_getitem (course r) "name".

(** A course dict that carries a string under ['name']. *)
Definition named (c : pyval) : bool :=
  match c with
  | PyDict d =>
      match dict_get d "name" with
      | Some (PyStr _) => true
      | _ => false
      end
  | _ => false
  end.

(** The scored entries of all fetches, in fetch order: what the loop over
    the missing skills leaves in [all_courses] when nothing raises. *)
Definition pipeline (net : endpoint) (missing_skills : list missing_skill)
    : list recommendation :=
  flat_map (fun sk => flat_map (scored missing_skills sk) (fetched net sk))
    missing_skills.

(** ** The lists of the knowledge graph *)

(** The skills table: the index (a uri) and the ['preferredLabel'] cell of
    each row, in index order.  A missing label is not a string. *)
Definition skills_table := list (string * pyval).

(** [_kg.skills.loc[uri, 'preferredLabel']]: the cell of the row when the
    uri stands once in the index, and the column of all its rows, which is
    not a string, when it stands several times. *)
Definition loc_label (skills : skills_table) (uri : string) : pyval :=
  match filter (fun row => String.eqb (fst row) uri) skills with
  | [(_, label)] => label
  | rows => PyList (map snd rows)
  end.

(** [sorted(skills, key=lambda x: x[1])]: stable, by code points. *)
Fixpoint insert_by_label (x : string * string) (l : list (string * string))
    : list (string * string) :=
  match l with
  | [] => [x]
  | y :: l' =>
      if String.ltb (snd y) (snd x) then y :: insert_by_label x l'
      else x :: l
  end.

Definition sorted_by_label (l : list (string * string))
    : list (string * string) :=
  fold_right insert_by_label [] l.

(** The loop of [get_skills_list] before the sort. *)
Definition labelled_skills (skills : skills_table) : list (string * string) :=
  flat_map (fun uri => match loc_label skills uri with
                       | PyStr label => [(uri, label)]
                       | _ => []
                       end)
    (map fst skills).

Definition get_skills_list (skills : skills_table) : list (string * string) :=
  sorted_by_label (labelled_skills skills).

(** Labels in non-decreasing order. *)
Inductive label_sorted : list (string * string) -> Prop :=
| label_sorted_nil : label_sorted []
| label_sorted_one : forall x, label_sorted [x]
| label_sorted_cons : forall x y l,
    String.leb (snd x) (snd y) = true -> label_sorted (y :: l) ->
    label_sorted (x :: y :: l).

(** ** Employees *)

(** A row of [kg.employees]; the skills cell can be empty. *)
Record employee : Type := {
  employee_id : string;
  emp_name : string;
  emp_skills : option string;
  years_of_experience : Z;
  emp_experience_level : string
}.

(** [str.upper] on the letters a-z, which cover the digits of a uuid. *)
Definition upper_char (c : ascii) : ascii :=
  let n := nat_of_ascii c in
  if ((97 <=? n) && (n <=? 122))%nat then ascii_of_nat (n - 32) else c.

Fixpoint upper (s : string) : string :=
  match s with
  | EmptyString => EmptyString
  | String c s' => String (upper_char c) (upper s')
  end.

(** [save_new_employee(kg, name, skills)]; [hex] is [uuid.uuid4().hex].
    Returns the new frame, which is also what is written to the csv file,
    and the new id. *)
Definition save_new_employee (employees : list employee) (hex : string)
    (new_name : string) (new_skills : list string)
    : list employee * string :=
  let new_id := String.append "EMP" (upper (substring 0 8 hex)) in
  let new_employee :=
    {| employee_id := new_id;
       emp_name := new_name;
       emp_skills := Some (String.concat ";" new_skills);
       years_of_experience := 0;
       emp_experience_level := "Beginner" |} in
  (employees ++ [new_employee], new_id).

(** [st.session_state]. *)
Record session : Type := {
  selected_employee : option string;
  selected_occ : option string
}.

(** [delete_employee(kg, employee_id)]: the rows with another id are kept,
    and a selection of the deleted employee is cleared. *)
Definition delete_employee (employees : list employee) (st : session)
    (id : string) : list employee * session :=
  (filter (fun e => negb (String.eqb (employee_id e) id)) employees,
   match selected_employee st with
   | Some sel =>
       if String.eqb sel id
       then {| selected_employee := None; selected_occ := None |}
       else st
   | None => st
   end).

(** [s.split(sep)] for a separator of one character. *)
Fixpoint split_on (sep : ascii) (s : string) : list string :=
  match s with
  | EmptyString => [EmptyString]
  | String c s' =>
      if Ascii.eqb c sep then EmptyString :: split_on sep s'
      else
        match split_on sep s' with
        | h :: t => String c h :: t
        | [] => [String c EmptyString]
        end
  end.

(** The uris that the employee and profile tabs walk through:
    [emp['skills'].split(';')] under [pd.notna(emp.get('skills'))]. *)
Definition stored_skills (e : employee) : list string :=
  match emp_skills e with
  | Some s => split_on ";" s
  | None => []
  end.

(** Whether a text holds the character. *)
Fixpoint has_char (c : ascii) (s : string) : bool :=
  match s with
  | EmptyString => false
  | String x s' => Ascii.eqb x c || has_char c s'
  end.

(** The selection names a row of the frame, or nothing. *)
Definition selection_valid (employees : list employee) (st : session) : Prop :=
  match selected_employee st with
  | Some sel => In sel (map employee_id employees)
  | None => True
  end.

(** ** The profile tab *)

(** The two groups of the missing skills that the tab lists. *)
Definition essential_skills (missing : list missing_skill)
    : list missing_skill :=
  filter (fun m => String.eqb (occupation_skill_level m) "essential") missing.

Definition optional_skills (missing : list missing_skill)
    : list missing_skill :=
  filter (fun m => String.eqb (occupation_skill_level m) "optional") missing.

(** * Properties *)

(** ** Rounding to binary64 *)

Module binary64_facts.
Import binary64.
Local Open Scope Q_scope.

Lemma pow2_pos (k : Z) : 0 < 2 ^ k.
Proof. apply Qpower_0_lt. reflexivity. Qed.

Lemma pow2_plus (a b : Z) : 2 ^ (a + b) == 2 ^ a * 2 ^ b.
Proof. apply Qpower_plus. discriminate. Qed.

Lemma pow2_succ (k : Z) : 2 ^ (k + 1) == 2 * 2 ^ k.
Proof. rewrite pow2_plus. change (2 ^ 1) with 2. ring. Qed.

Lemma pow2_le (a b : Z) : (a <= b)%Z -> 2 ^ a <= 2 ^ b.
Proof. intros H. apply Qpower_le_compat_l; [exact H | discriminate]. Qed.

Lemma pow2_lt (a b : Z) : (a < b)%Z -> 2 ^ a < 2 ^ b.
Proof. intros H. apply Qpower_lt_compat_l; [exact H | reflexivity]. Qed.

Lemma pow2_lt_inv (a b : Z) : 2 ^ a < 2 ^ b -> (a < b)%Z.
Proof. intros H. apply Qpower_lt_compat_l_inv with (q := 2); [exact H | reflexivity]. Qed.

Lemma pow2_Z (k : Z) : (0 <= k)%Z -> inject_Z (2 ^ k) == 2 ^ k.
Proof. intros H. apply (Zpower_Qpower 2 k H). Qed.

Lemma log2_Q (n : Z) :
  (0 < n)%Z -> 2 ^ Z.log2 n <= inject_Z n /\ inject_Z n < 2 ^ (Z.log2 n + 1).
Proof.
  intros H. destruct (Z.log2_spec n H) as [H1 H2].
  pose proof (Z.log2_nonneg n) as H0.
  split.
  - rewrite <- pow2_Z by exact H0. rewrite <- Zle_Qle. exact H1.
  - rewrite <- pow2_Z by lia. rewrite <- Zlt_Qlt.
    replace (Z.log2 n + 1)%Z with (Z.succ (Z.log2 n)) by lia. exact H2.
Qed.

Lemma ilog2_bounds (n : Z) (d : positive) :
  (0 < n)%Z ->
  let k := (Z.log2 n - Z.log2 (Zpos d))%Z in
  2 ^ (k - 1) <= n # d /\ n # d < 2 ^ (k + 1).
Proof.
  intros H k.
  destruct (log2_Q H) as [N1 N2].
  destruct (@log2_Q (Zpos d) eq_refl) as [D1 D2].
  assert (Dp : 0 < inject_Z (Zpos d)) by reflexivity.
  rewrite (Qmake_Qdiv n d).
  split.
  - apply Qle_shift_div_l; [exact Dp|].
    apply Qle_trans with (2 ^ Z.log2 n); [|exact N1].
    assert (E : 2 ^ Z.log2 n == 2 ^ (k - 1) * 2 ^ (Z.log2 (Zpos d) + 1)).
    { rewrite <- pow2_plus. replace (k - 1 + (Z.log2 (Zpos d) + 1))%Z with (Z.log2 n)
        by (unfold k; lia). reflexivity. }
    rewrite E.
    apply Qmult_le_l; [apply pow2_pos|]. apply Qlt_le_weak. exact D2.
  - apply Qlt_shift_div_r; [exact Dp|].
    apply Qlt_le_trans with (2 ^ (Z.log2 n + 1)); [exact N2|].
    assert (E : 2 ^ (Z.log2 n + 1) == 2 ^ (k + 1) * 2 ^ Z.log2 (Zpos d)).
    { rewrite <- pow2_plus. replace (k + 1 + Z.log2 (Zpos d))%Z with (Z.log2 n + 1)%Z
        by (unfold k; lia). reflexivity. }
    rewrite E.
    apply Qmult_le_l; [apply pow2_pos|]. exact D1.
Qed.

Lemma ilog2_spec (q : Q) : 0 < q -> 2 ^ ilog2 q <= q /\ q < 2 ^ (ilog2 q + 1).
Proof.
  destruct q as [n d]. intros H.
  assert (Hn : (0 < n)%Z) by (unfold Qlt in H; simpl in H; lia).
  destruct (ilog2_bounds d Hn) as [B1 B2].
  unfold ilog2. cbn [Qnum Qden].
  set (k := (Z.log2 n - Z.log2 (Zpos d))%Z) in *.
  destruct (Qle_bool (2 ^ k) (n # d)) eqn:E.
  - split; [apply Qle_bool_iff; exact E | exact B2].
  - split; [exact B1|].
    replace (k - 1 + 1)%Z with k by lia.
    apply Qnot_le_lt. intros C. apply Qle_bool_iff in C. congruence.
Qed.

Lemma ilog2_unique (q : Q) (k : Z) :
  2 ^ k <= q -> q < 2 ^ (k + 1) -> ilog2 q = k.
Proof.
  intros H1 H2.
  assert (Hq : 0 < q) by (eapply Qlt_le_trans; [apply (pow2_pos k) | exact H1]).
  destruct (ilog2_spec Hq) as [S1 S2].
  assert (A : (ilog2 q < k + 1)%Z)
    by (apply pow2_lt_inv; eapply Qle_lt_trans; [exact S1 | exact H2]).
  assert (B : (k < ilog2 q + 1)%Z)
    by (apply pow2_lt_inv; eapply Qle_lt_trans; [exact H1 | exact S2]).
  lia.
Qed.


Lemma rne_cases (s : Q) : rne s = Qfloor s \/ rne s = (Qfloor s + 1)%Z.
Proof.
  unfold rne. destruct (Qcompare (s - inject_Z (Qfloor s)) (1 # 2)); auto.
  destruct (Z.even (Qfloor s)); auto.
Qed.

Lemma rne_Z (z : Z) : rne (inject_Z z) = z.
Proof.
  unfold rne. rewrite Qfloor_Z.
  assert (E : inject_Z z - inject_Z z == 0) by ring.
  rewrite E. reflexivity.
Qed.

Lemma rne_comp (s t : Q) : s == t -> rne s = rne t.
Proof.
  intros E. unfold rne.
  assert (F : Qfloor s = Qfloor t) by (rewrite E; reflexivity).
  rewrite F.
  assert (C : Qcompare (s - inject_Z (Qfloor t)) (1 # 2) =
              Qcompare (t - inject_Z (Qfloor t)) (1 # 2)) by (rewrite E; reflexivity).
  rewrite C. reflexivity.
Qed.

Lemma rne_mono (s t : Q) : s <= t -> (rne s <= rne t)%Z.
Proof.
  intros H. pose proof (Qfloor_resp_le _ _ H) as F.
  destruct (Z.eq_dec (Qfloor s) (Qfloor t)) as [E|N].
  - unfold rne. rewrite E.
    destruct (Qcompare_spec (s - inject_Z (Qfloor t)) (1 # 2)) as [A|A|A];
      destruct (Qcompare_spec (t - inject_Z (Qfloor t)) (1 # 2)) as [B|B|B];
      destruct (Z.even (Qfloor t)); try lia; exfalso; lra.
  - destruct (rne_cases s) as [A|A]; destruct (rne_cases t) as [B|B]; lia.
Qed.

(** The mantissa chosen for a positive rational. *)
Lemma scaled_bounds (q : Q) :
  0 < q ->
  inject_Z (2 ^ 52) <= q / 2 ^ (ilog2 q - 52) /\
  q / 2 ^ (ilog2 q - 52) < inject_Z (2 ^ 53).
Proof.
  intros H. destruct (ilog2_spec H) as [S1 S2].
  set (e := (ilog2 q - 52)%Z).
  assert (E1 : 2 ^ ilog2 q == inject_Z (2 ^ 52) * 2 ^ e).
  { rewrite pow2_Z by lia. rewrite <- pow2_plus.
    replace (52 + e)%Z with (ilog2 q) by (unfold e; lia). reflexivity. }
  assert (E2 : 2 ^ (ilog2 q + 1) == inject_Z (2 ^ 53) * 2 ^ e).
  { rewrite pow2_Z by lia. rewrite <- pow2_plus.
    replace (53 + e)%Z with (ilog2 q + 1)%Z by (unfold e; lia). reflexivity. }
  split.
  - apply Qle_shift_div_l; [apply pow2_pos|]. rewrite <- E1. exact S1.
  - apply Qlt_shift_div_r; [apply pow2_pos|]. rewrite <- E2. exact S2.
Qed.

Lemma mantissa_bounds (q : Q) :
  0 < q ->
  (2 ^ 52 <= rne (q / 2 ^ (ilog2 q - 52)) <= 2 ^ 53)%Z.
Proof.
  intros H. destruct (scaled_bounds H) as [S1 S2].
  apply rne_mono in S1. apply Qlt_le_weak in S2. apply rne_mono in S2.
  rewrite rne_Z in S1, S2. split; assumption.
Qed.

Lemma rnd_pos_eq (q : Q) :
  rnd_pos q == inject_Z (rne (q / 2 ^ (ilog2 q - 52))) * 2 ^ (ilog2 q - 52).
Proof. unfold rnd_pos. apply Qred_correct. Qed.

Lemma rnd_pos_bounds (q : Q) :
  0 < q -> 2 ^ ilog2 q <= rnd_pos q /\ rnd_pos q <= 2 ^ (ilog2 q + 1).
Proof.
  intros H. destruct (mantissa_bounds H) as [M1 M2].
  rewrite rnd_pos_eq.
  set (e := (ilog2 q - 52)%Z) in *.
  assert (E1 : 2 ^ ilog2 q == inject_Z (2 ^ 52) * 2 ^ e).
  { rewrite pow2_Z by lia. rewrite <- pow2_plus.
    replace (52 + e)%Z with (ilog2 q) by (unfold e; lia). reflexivity. }
  assert (E2 : 2 ^ (ilog2 q + 1) == inject_Z (2 ^ 53) * 2 ^ e).
  { rewrite pow2_Z by lia. rewrite <- pow2_plus.
    replace (53 + e)%Z with (ilog2 q + 1)%Z by (unfold e; lia). reflexivity. }
  rewrite E1, E2. split.
  - apply Qmult_le_compat_r; [|apply Qlt_le_weak, pow2_pos].
    rewrite <- Zle_Qle. exact M1.
  - apply Qmult_le_compat_r; [|apply Qlt_le_weak, pow2_pos].
    rewrite <- Zle_Qle. exact M2.
Qed.

Lemma rnd_pos_pos (q : Q) : 0 < q -> 0 < rnd_pos q.
Proof.
  intros H. eapply Qlt_le_trans; [apply (pow2_pos (ilog2 q))|].
  apply (rnd_pos_bounds H).
Qed.

Lemma ilog2_mono (x y : Q) : 0 < x -> x <= y -> (ilog2 x <= ilog2 y)%Z.
Proof.
  intros Hx H.
  assert (Hy : 0 < y) by (eapply Qlt_le_trans; eassumption).
  destruct (ilog2_spec Hx) as [X1 _]. destruct (ilog2_spec Hy) as [_ Y2].
  assert (L : (ilog2 x < ilog2 y + 1)%Z).
  { apply pow2_lt_inv. eapply Qle_lt_trans; [exact X1|].
    eapply Qle_lt_trans; [exact H | exact Y2]. }
  lia.
Qed.

Lemma rnd_pos_mono (x y : Q) : 0 < x -> x <= y -> rnd_pos x <= rnd_pos y.
Proof.
  intros Hx H.
  assert (Hy : 0 < y) by (eapply Qlt_le_trans; eassumption).
  pose proof (ilog2_mono Hx H) as L.
  destruct (Z.eq_dec (ilog2 x) (ilog2 y)) as [E|N].
  - rewrite !rnd_pos_eq. rewrite E.
    apply Qmult_le_compat_r; [|apply Qlt_le_weak, pow2_pos].
    rewrite <- Zle_Qle. apply rne_mono.
    apply Qmult_le_compat_r; [exact H|].
    apply Qlt_le_weak, Qinv_lt_0_compat, pow2_pos.
  - destruct (rnd_pos_bounds Hx) as [_ X2]. destruct (rnd_pos_bounds Hy) as [Y1 _].
    eapply Qle_trans; [exact X2|]. eapply Qle_trans; [|exact Y1].
    apply pow2_le. lia.
Qed.

Lemma ilog2_comp (x y : Q) : 0 < x -> x == y -> ilog2 x = ilog2 y.
Proof.
  intros Hx E. destruct (ilog2_spec Hx) as [X1 X2].
  symmetry. apply ilog2_unique; rewrite <- E; assumption.
Qed.

Lemma rnd_pos_comp (x y : Q) : 0 < x -> x == y -> rnd_pos x = rnd_pos y.
Proof.
  intros Hx E. unfold rnd_pos. apply Qred_complete.
  rewrite (ilog2_comp Hx E).
  rewrite (@rne_comp (x / 2 ^ (ilog2 y - 52)) (y / 2 ^ (ilog2 y - 52)))
    by (rewrite E; reflexivity).
  reflexivity.
Qed.

(** A number with a mantissa that fits is left unchanged. *)
Lemma rnd_pos_fixed (q : Q) (m e : Z) :
  0 < q -> q == inject_Z m * 2 ^ e -> (ilog2 q - 52 <= e)%Z -> rnd_pos q == q.
Proof.
  intros Hq E L. rewrite rnd_pos_eq.
  set (e0 := (ilog2 q - 52)%Z) in *.
  assert (P : 2 ^ e == inject_Z (2 ^ (e - e0)) * 2 ^ e0).
  { rewrite pow2_Z by lia. rewrite <- pow2_plus.
    replace (e - e0 + e0)%Z with e by lia. reflexivity. }
  assert (S : q / 2 ^ e0 == inject_Z (m * 2 ^ (e - e0))).
  { rewrite inject_Z_mult. rewrite E at 1. rewrite P.
    field. apply Qnot_eq_sym, Qlt_not_eq, pow2_pos. }
  rewrite (rne_comp S), rne_Z. rewrite inject_Z_mult.
  rewrite E, P. ring.
Qed.

Lemma rnd_pos_idem (q : Q) : 0 < q -> rnd_pos (rnd_pos q) == rnd_pos q.
Proof.
  intros Hq. pose proof (rnd_pos_pos Hq) as Hr.
  destruct (mantissa_bounds Hq) as [M1 M2].
  destruct (rnd_pos_bounds Hq) as [B1 B2].
  destruct (Z.eq_dec (rne (q / 2 ^ (ilog2 q - 52))) (2 ^ 53)) as [T|T].
  - assert (E : rnd_pos q == 2 ^ (ilog2 q + 1)).
    { rewrite rnd_pos_eq, T. rewrite pow2_Z by lia. rewrite <- pow2_plus.
      replace (53 + (ilog2 q - 52))%Z with (ilog2 q + 1)%Z by lia. reflexivity. }
    apply rnd_pos_fixed with (m := 1%Z) (e := (ilog2 q + 1)%Z); [exact Hr| |].
    + rewrite E. change (inject_Z 1) with 1. ring.
    + assert (I : ilog2 (rnd_pos q) = (ilog2 q + 1)%Z).
      { apply ilog2_unique; rewrite E; [apply Qle_refl|]. apply pow2_lt. lia. }
      lia.
  - apply rnd_pos_fixed with (m := rne (q / 2 ^ (ilog2 q - 52))) (e := (ilog2 q - 52)%Z);
      [exact Hr | apply rnd_pos_eq |].
    assert (I : ilog2 (rnd_pos q) = ilog2 q).
    { apply ilog2_unique; [exact B1|]. rewrite rnd_pos_eq.
      assert (E2 : 2 ^ (ilog2 q + 1) == inject_Z (2 ^ 53) * 2 ^ (ilog2 q - 52)).
      { rewrite pow2_Z by lia. rewrite <- pow2_plus.
        replace (53 + (ilog2 q - 52))%Z with (ilog2 q + 1)%Z by lia. reflexivity. }
      rewrite E2. apply Qmult_lt_compat_r; [apply pow2_pos|].
      rewrite <- Zlt_Qlt. lia. }
    lia.
Qed.

Lemma rnd_pos_scale (q : Q) : 0 < q -> rnd_pos (2 * q) == 2 * rnd_pos q.
Proof.
  intros Hq. destruct (ilog2_spec Hq) as [S1 S2].
  assert (I : ilog2 (2 * q) = (ilog2 q + 1)%Z).
  { apply ilog2_unique.
    - rewrite pow2_succ. apply Qmult_le_l; [reflexivity | exact S1].
    - rewrite (pow2_succ (ilog2 q + 1)). apply Qmult_lt_l; [reflexivity | exact S2]. }
  rewrite !rnd_pos_eq. rewrite I.
  replace (ilog2 q + 1 - 52)%Z with (ilog2 q - 52 + 1)%Z by lia.
  assert (S : 2 * q / 2 ^ (ilog2 q - 52 + 1) == q / 2 ^ (ilog2 q - 52)).
  { rewrite pow2_succ. field. apply Qnot_eq_sym, Qlt_not_eq, pow2_pos. }
  rewrite (rne_comp S). rewrite pow2_succ. ring.
Qed.


Lemma rnd_of_pos (q : Q) : 0 < q -> rnd q = rnd_pos q.
Proof.
  destruct q as [[|p|p] d]; intros H; try reflexivity; discriminate H.
Qed.

Lemma rnd_opp (q : Q) : rnd (- q) == - rnd q.
Proof.
  destruct q as [[|p|p] d]; unfold rnd; cbn [Qopp Qnum Qden Z.opp].
  - reflexivity.
  - reflexivity.
  - rewrite Qopp_involutive. reflexivity.
Qed.

Lemma rnd_nonneg (q : Q) : 0 <= q -> 0 <= rnd q.
Proof.
  destruct q as [[|p|p] d]; intros H.
  - apply Qle_refl.
  - apply Qlt_le_weak. apply (@rnd_pos_pos (Zpos p # d)). reflexivity.
  - exfalso. apply H. reflexivity.
Qed.

Lemma rnd_pos_lt (q : Q) : 0 < q -> 0 < rnd q.
Proof. intros H. rewrite (rnd_of_pos H). apply rnd_pos_pos, H. Qed.

Lemma rnd_mono (x y : Q) : x <= y -> rnd x <= rnd y.
Proof.
  intros H. destruct x as [[|p|p] d].
  - apply rnd_nonneg. eapply Qle_trans; [|exact H]. discriminate.
  - assert (Hx : 0 < Zpos p # d) by reflexivity.
    assert (Hy : 0 < y) by (eapply Qlt_le_trans; eassumption).
    rewrite (rnd_of_pos Hx), (rnd_of_pos Hy). apply rnd_pos_mono; assumption.
  - assert (Hx : 0 < Zpos p # d) by reflexivity.
    change (rnd (Zneg p # d)) with (- rnd_pos (Zpos p # d)).
    pose proof (rnd_pos_pos Hx) as Px.
    destruct (Qlt_le_dec y 0) as [Ny|Py].
    + assert (Hy : 0 < - y) by lra.
      assert (E : rnd y == - rnd_pos (- y)).
      { rewrite <- (rnd_of_pos Hy). rewrite rnd_opp. ring. }
      rewrite E. apply Qopp_le_compat. apply rnd_pos_mono; [exact Hy|].
      change (Zpos p # d) with (- (Zneg p # d)). lra.
    + apply rnd_nonneg in Py. lra.
Qed.

Lemma rnd_comp (x y : Q) : x == y -> rnd x == rnd y.
Proof.
  intros E. apply Qle_antisym; apply rnd_mono; rewrite E; apply Qle_refl.
Qed.

Lemma rnd_idem (q : Q) : rnd (rnd q) == rnd q.
Proof.
  destruct q as [[|p|p] d].
  - reflexivity.
  - assert (Hx : 0 < Zpos p # d) by reflexivity.
    rewrite (rnd_of_pos Hx). rewrite (rnd_of_pos (rnd_pos_pos Hx)).
    apply rnd_pos_idem, Hx.
  - assert (Hx : 0 < Zpos p # d) by reflexivity.
    change (rnd (Zneg p # d)) with (- rnd_pos (Zpos p # d)).
    rewrite rnd_opp. rewrite (rnd_of_pos (rnd_pos_pos Hx)).
    rewrite (rnd_pos_idem Hx). reflexivity.
Qed.

Lemma rnd_scale (q : Q) : rnd (2 * q) == 2 * rnd q.
Proof.
  destruct q as [[|p|p] d].
  - reflexivity.
  - assert (Hx : 0 < Zpos p # d) by reflexivity.
    assert (H2 : 0 < 2 * (Zpos p # d)) by reflexivity.
    rewrite (rnd_of_pos Hx), (rnd_of_pos H2). apply rnd_pos_scale, Hx.
  - assert (Hx : 0 < Zpos p # d) by reflexivity.
    assert (H2 : 0 < 2 * (Zpos p # d)) by reflexivity.
    change (rnd (Zneg p # d)) with (- rnd_pos (Zpos p # d)).
    change (2 * (Zneg p # d)) with (- (2 * (Zpos p # d))).
    rewrite rnd_opp, (rnd_of_pos H2), (rnd_pos_scale Hx). ring.
Qed.

Lemma rnd_int (k : Z) : (0 <= k <= 2 ^ 53)%Z -> rnd (inject_Z k) == inject_Z k.
Proof.
  intros [H0 H1].
  destruct (Z.eq_dec k 0) as [->|N0]; [reflexivity|].
  destruct (Z.eq_dec k (2 ^ 53)) as [->|N1]; [vm_compute; reflexivity|].
  assert (Hk : 0 < inject_Z k) by (change 0 with (inject_Z 0); rewrite <- Zlt_Qlt; lia).
  rewrite (rnd_of_pos Hk).
  apply rnd_pos_fixed with (m := k) (e := 0%Z); [exact Hk | |].
  - change (2 ^ 0) with 1. ring.
  - destruct (ilog2_spec Hk) as [S1 _].
    assert (L : (ilog2 (inject_Z k) < 53)%Z).
    { apply pow2_lt_inv. eapply Qle_lt_trans; [exact S1|].
      rewrite <- (@pow2_Z 53) by lia. rewrite <- Zlt_Qlt. lia. }
    lia.
Qed.

Lemma rnd_0 : rnd 0 = 0.
Proof. reflexivity. Qed.

Lemma rnd_1 : rnd 1 = 1.
Proof. vm_compute. reflexivity. Qed.

Lemma rnd_2 : rnd 2 = 2.
Proof. vm_compute. reflexivity. Qed.

(** A value that is already a float and lies above a bound lies above the
    rounded bound, and conversely when the bound rounds down. *)
Lemma float_above (b x : Q) :
  rnd x == x -> rnd b <= b -> (rnd b < x <-> b < x).
Proof.
  intros R D. split; intros H.
  - apply Qnot_le_lt. intros C. apply rnd_mono in C. rewrite R in C. lra.
  - lra.
Qed.

(** *** The floats of the program *)

Lemma fadd_float (x y : Q) : rnd (fadd x y) == fadd x y.
Proof. apply rnd_idem. Qed.

Lemma fmul_float (x y : Q) : rnd (fmul x y) == fmul x y.
Proof. apply rnd_idem. Qed.

Lemma fdiv_float (x y : Q) : rnd (fdiv x y) == fdiv x y.
Proof. apply rnd_idem. Qed.

Lemma float_03_below : float_03 <= 3 # 10.
Proof. vm_compute. discriminate. Qed.

Lemma float_03_pos : 0 < float_03.
Proof. vm_compute. reflexivity. Qed.

Lemma float_weights_sum : fadd float_07 float_03 = 1.
Proof. vm_compute. reflexivity. Qed.

(** For a float, to exceed the literal [0.3] is to exceed 3/10. *)
Lemma above_float_03 (x : Q) : rnd x == x -> (float_03 < x <-> 3 # 10 < x).
Proof.
  intros R. apply (float_above R). exact float_03_below.
Qed.

Lemma fadd_mono (x y x' y' : Q) :
  x <= x' -> y <= y' -> fadd x y <= fadd x' y'.
Proof. intros H1 H2. apply rnd_mono. lra. Qed.

Lemma fmul_mono (x y x' y' : Q) :
  0 <= x -> x <= x' -> 0 <= y -> y <= y' -> fmul x y <= fmul x' y'.
Proof. intros H0 H1 H2 H3. apply rnd_mono. nra. Qed.

Lemma float_07_float : rnd float_07 == float_07.
Proof. apply rnd_idem. Qed.

Lemma float_03_float : rnd float_03 == float_03.
Proof. apply rnd_idem. Qed.

Lemma float_07_pos : 0 < float_07.
Proof. vm_compute. reflexivity. Qed.

(** A float times a factor between 0 and 1 does not grow. *)
Lemma fmul_le_r (x y : Q) :
  0 <= x <= 1 -> 0 <= y -> rnd y == y -> 0 <= fmul x y <= y.
Proof.
  intros [H0 H1] Hy R. unfold fmul. split.
  - apply rnd_nonneg. nra.
  - rewrite <- R at 2. apply rnd_mono. nra.
Qed.

(** A running total that grows by at most 2 at each step stays under twice
    the number of steps: where the doubled count is no longer a float the
    total has stopped at 2^54. *)
Lemma total_bound (t x : Q) (n : Z) :
  (0 <= n)%Z -> t <= 2 * inject_Z n -> t <= inject_Z (2 ^ 54) -> x <= 2 ->
  fadd t x <= 2 * inject_Z (n + 1) /\ fadd t x <= inject_Z (2 ^ 54).
Proof.
  intros Hn Ht Hc Hx.
  assert (B : fadd t x <= inject_Z (2 ^ 54)).
  { assert (E : rnd (inject_Z (2 ^ 54) + 2) = inject_Z (2 ^ 54))
      by (vm_compute; reflexivity).
    rewrite <- E. apply rnd_mono. lra. }
  split; [|exact B].
  destruct (Z_le_gt_dec (n + 1) (2 ^ 53)) as [L|G].
  - assert (E : rnd (2 * inject_Z (n + 1)) == 2 * inject_Z (n + 1)).
    { rewrite rnd_scale, rnd_int by lia. reflexivity. }
    rewrite <- E. apply rnd_mono. rewrite inject_Z_plus.
    change (inject_Z 1) with 1. lra.
  - eapply Qle_trans; [exact B|].
    rewrite <- (inject_Z_mult 2). rewrite <- Zle_Qle. lia.
Qed.

Lemma fadd_0_l (x : Q) : rnd x == x -> fadd 0 x == x.
Proof.
  intros R. unfold fadd. rewrite <- R at 2. apply rnd_comp. ring.
Qed.

(** Twice a float is a float, and a float times 1 is itself. *)
Lemma fmul_2 (x : Q) : rnd x == x -> fmul x 2 == x * 2.
Proof.
  intros R. unfold fmul.
  assert (E : x * 2 == 2 * x) by ring.
  rewrite (rnd_comp E), rnd_scale, R. ring.
Qed.

Lemma fmul_1 (x : Q) : rnd x == x -> fmul x 1 == x * 1.
Proof.
  intros R. unfold fmul.
  assert (E : x * 1 == x) by ring.
  rewrite (rnd_comp E), R. ring.
Qed.

End binary64_facts.

(** ** The scoring function *)

Lemma calculate_skill_match_str (a b : string) :
  calculate_skill_match (PyStr a) (PyStr b) = Ok (similarity a b).
Proof. reflexivity. Qed.

Lemma skill_step_eq (cn cd : string) (t : Q) (m : list matched_skill)
    (sk : missing_skill) :
  skill_step cn cd (t, m) sk =
  Ok (if Qlt_le_dec binary64.float_03 (combined sk cn cd)
      then (binary64.fadd t
              (binary64.fmul (combined sk cn cd)
                 (level_weight (occupation_skill_level sk))),
            m ++ [entry_of sk cn cd])
      else (t, m)).
Proof.
  unfold skill_step. rewrite !calculate_skill_match_str. cbn [bind].
  fold (combined sk cn cd). fold (entry_of sk cn cd).
  destruct (Qlt_le_dec _ _); reflexivity.
Qed.

Lemma Ok_inj {A : Type} (x y : A) : Ok x = Ok y -> x = y.
Proof. intros H. injection H as ->. reflexivity. Qed.

Lemma for_each_app {S X : Type} (body : S -> X -> res S) (xs ys : list X)
    (st : S) :
  for_each body (xs ++ ys) st =
  (st' <- for_each body xs st ;; for_each body ys st').
Proof.
  revert st. induction xs as [|x xs IH]; intros st; simpl; [reflexivity|].
  destruct (body st x); simpl; auto.
Qed.

Lemma for_each_inv {S X : Type} (P : S -> Prop) (body : S -> X -> res S)
    (xs : list X) :
  (forall st x st', P st -> body st x = Ok st' -> P st') ->
  forall st st', P st -> for_each body xs st = Ok st' -> P st'.
Proof.
  intros Hstep. induction xs as [|x xs IH]; intros st st' HP H; simpl in H.
  - injection H as <-. exact HP.
  - destruct (body st x) as [st1|e] eqn:E; simpl in H; [|discriminate].
    eapply IH; [|exact H]. eapply Hstep; eauto.
Qed.

Lemma skills_loop_total (cn cd : string) (ms : list missing_skill)
    (st : Q * list matched_skill) :
  exists st', for_each (skill_step cn cd) ms st = Ok st'.
Proof.
  revert st. induction ms as [|sk ms IH]; intros [t m]; cbn [for_each].
  - eauto.
  - rewrite skill_step_eq. cbn [bind]. apply IH.
Qed.

Lemma element_step_eq (ms : list missing_skill) (st : Q * list matched_skill)
    (element : pyval) :
  element_step ms st element =
  (texts <- element_texts element ;;
   for_each (skill_step (fst texts) (snd texts)) ms st).
Proof.
  unfold element_step, element_texts.
  destruct (py_get element "name" (PyStr "")) as [n|]; simpl; [|reflexivity].
  destruct (py_lower n); simpl; [|reflexivity].
  destruct (py_get element "description" (PyStr "")) as [d|]; simpl;
    [|reflexivity].
  destruct (py_lower d); reflexivity.
Qed.

Lemma score_wrap (c : pyval) (ms : list missing_skill) :
  calculate_course_match_score (wrap c) ms =
  (st <- element_step ms (0, []) c ;; Ok (Scored (fst st) (snd st))).
Proof.
  unfold calculate_course_match_score, wrap. simpl.
  destruct (element_step ms (0, []) c); reflexivity.
Qed.

Lemma level_weight_pos (lvl : string) : 1 <= level_weight lvl.
Proof. unfold level_weight. destruct (String.eqb lvl "essential"); lra. Qed.

(** The weighted score is a float, so the test against the literal [0.3]
    is the test against 3/10. *)
Lemma combined_float (sk : missing_skill) (cn cd : string) :
  binary64.rnd (combined sk cn cd) == combined sk cn cd.
Proof. apply binary64_facts.fadd_float. Qed.

Lemma combined_above (sk : missing_skill) (cn cd : string) :
  binary64.float_03 < combined sk cn cd <-> 3 # 10 < combined sk cn cd.
Proof. apply binary64_facts.above_float_03, combined_float. Qed.

Lemma above_threshold (sk : missing_skill) (cn cd : string) :
  binary64.float_03 < combined sk cn cd -> 3 # 10 < combined sk cn cd.
Proof. exact (proj1 (combined_above sk cn cd)). Qed.

Lemma combined_below (sk : missing_skill) (cn cd : string) :
  combined sk cn cd <= binary64.float_03 <-> combined sk cn cd <= 3 # 10.
Proof.
  pose proof (combined_above sk cn cd) as [A B]. split; intros H.
  - apply Qnot_lt_le. intros C. apply B in C. lra.
  - apply Qnot_lt_le. intros C. apply A in C. lra.
Qed.

Lemma sum_trace_app (m : list matched_skill) (e : matched_skill) :
  sum_trace (m ++ [e]) =
  binary64.fadd (sum_trace m)
    (binary64.fmul (score e) (level_weight (level e))).
Proof. unfold sum_trace. rewrite fold_left_app. reflexivity. Qed.

Lemma contribution_pos (x : Q) (lvl : string) :
  3 # 10 < x -> 0 < binary64.fmul x (level_weight lvl).
Proof.
  intros H. pose proof (level_weight_pos lvl).
  apply binary64_facts.rnd_pos_lt. nra.
Qed.

Lemma sum_trace_nonneg (m : list matched_skill) :
  Forall (fun e => 3 # 10 < score e) m -> 0 <= sum_trace m.
Proof.
  induction m as [|e m IH] using rev_ind; intros H.
  - apply Qle_refl.
  - apply Forall_app in H. destruct H as [Hm He]. inversion He; subst.
    rewrite sum_trace_app. apply binary64_facts.rnd_nonneg.
    pose proof (IH Hm). pose proof (@contribution_pos (score e) (level e)).
    lra.
Qed.

Lemma sum_trace_pos (m : list matched_skill) :
  Forall (fun e => 3 # 10 < score e) m -> m <> [] -> 0 < sum_trace m.
Proof.
  intros H Hne. destruct (exists_last Hne) as [m' [e ->]].
  apply Forall_app in H. destruct H as [Hm He]. inversion He; subst.
  rewrite sum_trace_app. apply binary64_facts.rnd_pos_lt.
  pose proof (sum_trace_nonneg Hm).
  pose proof (@contribution_pos (score e) (level e)). lra.
Qed.

Lemma skill_step_inv (cn cd : string) (st st' : Q * list matched_skill)
    (sk : missing_skill) :
  trace_inv st -> skill_step cn cd st sk = Ok st' -> trace_inv st'.
Proof.
  destruct st as [t m]. rewrite skill_step_eq. intros [Ht Hm] H.
  apply Ok_inj in H. subst st'. cbn [fst snd] in Ht, Hm.
  destruct (Qlt_le_dec _ _) as [Hlt|Hle]; split; cbn [fst snd]; auto.
  - rewrite sum_trace_app. cbn [score level entry_of]. unfold binary64.fadd.
    apply binary64_facts.rnd_comp. rewrite Ht. reflexivity.
  - apply Forall_app. split; [exact Hm|].
    constructor; [exact (above_threshold _ _ _ Hlt)|constructor].
Qed.

Lemma element_step_inv (ms : list missing_skill)
    (st st' : Q * list matched_skill) (element : pyval) :
  trace_inv st -> element_step ms st element = Ok st' -> trace_inv st'.
Proof.
  rewrite element_step_eq. intros Hst H.
  destruct (element_texts element) as [[cn cd]|]; simpl in H; [|discriminate].
  eapply for_each_inv; [|exact Hst|exact H].
  intros s x s'. apply skill_step_inv.
Qed.

Lemma score_inv (c : pyval) (ms : list missing_skill) (t : Q)
    (m : list matched_skill) :
  calculate_course_match_score c ms = Ok (Scored t m) -> trace_inv (t, m).
Proof.
  unfold calculate_course_match_score. intros H.
  destruct (if negb (truthy c) then Ok true
            else has <- py_in "elements" c ;; Ok (negb has)) as [[|]|];
    simpl in H; try discriminate.
  destruct (py_getitem c "elements") as [v|]; simpl in H; [|discriminate].
  destruct (py_iter v) as [els|]; simpl in H; [|discriminate].
  destruct (for_each (element_step ms) els (0, [])) as [st|] eqn:E;
    simpl in H; [|discriminate].
  injection H as <- <-.
  assert (trace_inv st) as Hst.
  { eapply for_each_inv; [|
      |exact E].
    - intros s x s'. apply element_step_inv.
    - split; simpl; [reflexivity|constructor]. }
  destruct st; exact Hst.
Qed.

(** Where the entries of the trace of one element come from. *)
Lemma trace_entries (cn cd : string) (ms : list missing_skill) (t t' : Q)
    (m m' : list matched_skill) :
  for_each (skill_step cn cd) ms (t, m) = Ok (t', m') ->
  forall e, In e m' ->
    In e m \/
    exists sk, In sk ms /\ 3 # 10 < combined sk cn cd /\ e = entry_of sk cn cd.
Proof.
  revert t m. induction ms as [|sk ms IH]; intros t m H e He; cbn [for_each] in H.
  - injection H as <- <-. auto.
  - rewrite skill_step_eq in H. cbn [bind] in H.
    destruct (Qlt_le_dec _ _) as [Hlt|Hle].
    + apply above_threshold in Hlt.
      destruct (IH _ _ H e He) as [Hin|[sk' [Hin [Hc Heq]]]].
      * apply in_app_or in Hin. destruct Hin as [Hin|[<-|[]]]; [auto|].
        right. exists sk. simpl. auto.
      * right. exists sk'. simpl. auto.
    + destruct (IH _ _ H e He) as [Hin|[sk' [Hin [Hc Heq]]]]; [auto|].
      right. exists sk'. simpl. auto.
Qed.

(** A skill under the threshold leaves the loop state as it was. *)
Lemma skills_loop_skip (cn cd : string) (sk : missing_skill)
    (ms1 ms2 : list missing_skill) (st : Q * list matched_skill) :
  combined sk cn cd <= 3 # 10 ->
  for_each (skill_step cn cd) (ms1 ++ sk :: ms2) st =
  for_each (skill_step cn cd) (ms1 ++ ms2) st.
Proof.
  intros Hle. rewrite !for_each_app.
  destruct (for_each (skill_step cn cd) ms1 st) as [[t m]|];
    cbn [bind for_each]; [|reflexivity].
  rewrite skill_step_eq.
  destruct (Qlt_le_dec _ _) as [Hlt|_]; [|reflexivity].
  apply above_threshold in Hlt. lra.
Qed.

(** C2: a (missing skill, course) pair whose weighted score
    name similarity * 0.7 + description similarity * 0.3, computed in
    floats on the lower-cased texts as the program computes it, is at most
    0.3 changes neither the total score nor the trace: the loop body returns
    its state untouched, the result of the scoring function is the one
    obtained without that skill, and no entry of the trace carries the label
    of that skill.  The program tests the score against the float literal
    0.3; for a float that is the test against 3/10 ([combined_above]). *)
Theorem threshold_property (c : pyval) (cn cd : string) (sk : missing_skill) :
  element_texts c = Ok (cn, cd) ->
  combined sk cn cd <= 3 # 10 ->
  (forall st, skill_step cn cd st sk = Ok st) /\
  (forall ms1 ms2,
      calculate_course_match_score (wrap c) (ms1 ++ sk :: ms2) =
      calculate_course_match_score (wrap c) (ms1 ++ ms2)) /\
  (forall ms t m,
      calculate_course_match_score (wrap c) ms = Ok (Scored t m) ->
      forall e, In e m -> skill e <> lower (skill_label sk)).
Proof.
  intros Htexts Hle. split; [|split].
  - intros [t m]. rewrite skill_step_eq.
    destruct (Qlt_le_dec _ _) as [Hlt|_]; [|reflexivity].
    apply above_threshold in Hlt. lra.
  - intros ms1 ms2. rewrite !score_wrap, !element_step_eq, Htexts. simpl.
    rewrite skills_loop_skip by exact Hle. reflexivity.
  - intros ms t m H e He Heq.
    rewrite score_wrap, element_step_eq, Htexts in H. simpl in H.
    destruct (for_each (skill_step cn cd) ms (0, [])) as [[t' m']|] eqn:E;
      simpl in H; [|discriminate].
    injection H as <- <-.
    destruct (@trace_entries cn cd ms 0 t' [] m' E e He) as [[]|[sk' [_ [Hc ->]]]].
    simpl in Heq. unfold combined in Hc, Hle. rewrite Heq in Hc. lra.
Qed.

(** C3: for two missing skills that differ only in their level, one
    essential and one optional, and a weighted score above the threshold,
    the essential one adds score * 2 to the total and the optional one
    score * 1.  Both products are exact in floats, so the essential
    contribution is exactly twice the optional one; the totals are the
    float sums of the old total and the contribution, and from a total of 0
    they are the contributions themselves. *)
Theorem weighting_property (cn cd label : string) (exper : option string)
    (t : Q) (m : list matched_skill) :
  let ess := {| skill_label := label; occupation_skill_level := "essential";
                experience_level := exper |} in
  let opt := {| skill_label := label; occupation_skill_level := "optional";
                experience_level := exper |} in
  3 # 10 < combined ess cn cd ->
  exists s te me to_ mo,
    s = combined ess cn cd /\ s = combined opt cn cd /\
    skill_step cn cd (t, m) ess = Ok (te, me) /\
    skill_step cn cd (t, m) opt = Ok (to_, mo) /\
    te = binary64.fadd t (binary64.fmul s 2) /\
    to_ = binary64.fadd t (binary64.fmul s 1) /\
    binary64.fmul s 2 == s * 2 /\ binary64.fmul s 1 == s * 1 /\
    binary64.fmul s 2 == 2 * binary64.fmul s 1 /\
    (t = 0 -> te == s * 2 /\ to_ == s * 1 /\ te - t == 2 * (to_ - t)).
Proof.
  intros ess opt Hlt.
  exists (combined ess cn cd),
    (binary64.fadd t (binary64.fmul (combined ess cn cd) 2)),
    (m ++ [entry_of ess cn cd]),
    (binary64.fadd t (binary64.fmul (combined ess cn cd) 1)),
    (m ++ [entry_of opt cn cd]).
  assert (combined opt cn cd = combined ess cn cd) as Hc by reflexivity.
  pose proof (combined_float ess cn cd) as Hf.
  pose proof (binary64_facts.fmul_2 Hf) as H2.
  pose proof (binary64_facts.fmul_1 Hf) as H1.
  apply (proj2 (combined_above ess cn cd)) in Hlt.
  split; [reflexivity|]. split; [reflexivity|].
  split.
  { rewrite skill_step_eq. destruct (Qlt_le_dec _ _) as [_|Hle]; [|lra].
    reflexivity. }
  split.
  { rewrite skill_step_eq. rewrite Hc.
    destruct (Qlt_le_dec _ _) as [_|Hle]; [|lra]. reflexivity. }
  split; [reflexivity|]. split; [reflexivity|].
  split; [exact H2|]. split; [exact H1|].
  split; [rewrite H2, H1; ring|].
  intros ->.
  assert (binary64.fadd 0 (binary64.fmul (combined ess cn cd) 2)
          == combined ess cn cd * 2) as E2.
  { rewrite binary64_facts.fadd_0_l by apply binary64_facts.fmul_float.
    exact H2. }
  assert (binary64.fadd 0 (binary64.fmul (combined ess cn cd) 1)
          == combined ess cn cd * 1) as E1.
  { rewrite binary64_facts.fadd_0_l by apply binary64_facts.fmul_float.
    exact H1. }
  split; [exact E2|]. split; [exact E1|]. rewrite E2, E1. ring.
Qed.

(** C10: whenever the scoring function returns its dict, the total score
    is the sum over the trace of score times weight (2 for level
    "essential", else 1), added up in the order of the trace in the floats
    of the program, every entry of the trace has a score above 0.3, and the
    total score is positive exactly when the trace is not empty. *)
Theorem trace_consistency (c : pyval) (ms : list missing_skill) (t : Q)
    (m : list matched_skill) :
  calculate_course_match_score c ms = Ok (Scored t m) ->
  t == sum_trace m /\
  Forall (fun e => 3 # 10 < score e) m /\
  (0 < t <-> m <> []).
Proof.
  intros H. destruct (score_inv _ _ H) as [Ht Hm]. cbn [fst snd] in Ht, Hm.
  split; [exact Ht|]. split; [exact Hm|]. split.
  - intros Hpos Hnil. subst m. change (t == 0) in Ht. lra.
  - intros Hne. rewrite Ht. apply sum_trace_pos; assumption.
Qed.

(** C8 (as amended): [calculate_skill_match] returns the similarity of the
    lower-cased texts when both arguments are strings, and raises
    [AttributeError] as soon as one of them is not a string. *)
Theorem skill_match_failure_modes (skill1 skill2 : pyval) :
  calculate_skill_match skill1 skill2 =
  match skill1, skill2 with
  | PyStr a, PyStr b => Ok (similarity a b)
  | _, _ => Raise AttributeError
  end.
Proof.
  destruct skill1; try reflexivity.
  destruct skill2; reflexivity.
Qed.

(** C8 as stated fails: an absent ([None]) argument is not read as the
    empty string, the call raises. *)
Lemma skill_match_none_raises :
  calculate_skill_match PyNone (PyStr "python") = Raise AttributeError
  /\ calculate_skill_match (PyStr "") (PyStr "python") = Ok (similarity "" "python").
Proof. split; reflexivity. Qed.

(** ** The aggregator *)

Lemma course_step_eq (ms : list missing_skill) (sk : missing_skill)
    (acc : list recommendation) (c : pyval) (cn cd : string) :
  element_texts c = Ok (cn, cd) ->
  exists t m,
    calculate_course_match_score (wrap c) ms = Ok (Scored t m) /\
    course_step ms sk acc c =
    Ok (if Qlt_le_dec 0 t
        then acc ++ [ {| course := c;
                         match_score := (t, m);
                         target_skill_level := occupation_skill_level sk;
                         suitable_for_experience :=
                           match experience_level sk with
                           | Some e => e
                           | None => "Beginner"
                           end |} ]
        else acc).
Proof.
  intros Htexts. unfold course_step. fold (wrap c).
  rewrite score_wrap, element_step_eq, Htexts. cbn [bind fst snd].
  destruct (skills_loop_total cn cd ms (0, [])) as [[t m] ->].
  exists t, m. cbn [bind fst snd]. split; [reflexivity|].
  destruct (Qlt_le_dec 0 t); reflexivity.
Qed.

Lemma course_step_pos (ms : list missing_skill) (sk : missing_skill)
    (acc acc' : list recommendation) (c : pyval) :
  Forall (fun r => 0 < rec_score r) acc ->
  course_step ms sk acc c = Ok acc' ->
  Forall (fun r => 0 < rec_score r) acc'.
Proof.
  intros Hacc. unfold course_step.
  destruct (calculate_course_match_score _ ms) as [[|t m]|]; simpl;
    try discriminate.
  destruct (Qlt_le_dec 0 t) as [Hlt|Hle]; intros H; injection H as <-.
  - apply Forall_app. split; [exact Hacc|]. constructor; [exact Hlt|constructor].
  - exact Hacc.
Qed.

Lemma courses_step_pos (ms : list missing_skill) (sk : missing_skill)
    (courses : pyval) (acc acc' : list recommendation) :
  Forall (fun r => 0 < rec_score r) acc ->
  courses_step ms sk courses acc = Ok acc' ->
  Forall (fun r => 0 < rec_score r) acc'.
Proof.
  intros Hacc. unfold courses_step.
  destruct (if truthy courses then py_in "elements" courses else Ok false)
    as [[|]|]; simpl; try discriminate.
  - destruct (py_getitem courses "elements") as [v|]; simpl; [|discriminate].
    destruct (py_iter v) as [els|]; simpl; [|discriminate].
    intros H. eapply for_each_inv; [|exact Hacc|exact H].
    intros s x s'. apply course_step_pos.
  - intros H. injection H as <-. exact Hacc.
Qed.

Lemma fetch_loop_pos (net : endpoint) (ms todo : list missing_skill)
    (acc all_courses : list recommendation) (calls : list string) :
  Forall (fun r => 0 < rec_score r) acc ->
  fst (fetch_loop net ms todo acc calls) = Ok all_courses ->
  Forall (fun r => 0 < rec_score r) all_courses.
Proof.
  revert acc calls. induction todo as [|sk todo IH]; intros acc calls Hacc;
    simpl.
  - intros H. injection H as <-. exact Hacc.
  - destruct (courses_step ms sk _ acc) as [acc'|] eqn:E; simpl;
      [|discriminate].
    apply IH. eapply courses_step_pos; eauto.
Qed.

(** Every missing skill met by the loop is queried once, in order. *)
Lemma fetch_loop_calls (net : endpoint) (ms todo : list missing_skill)
    (acc all_courses : list recommendation) (calls calls' : list string) :
  fetch_loop net ms todo acc calls = (Ok all_courses, calls') ->
  calls' = calls ++ map skill_label todo.
Proof.
  revert acc calls. induction todo as [|sk todo IH]; intros acc calls; simpl.
  - intros H. injection H as _ <-. now rewrite app_nil_r.
  - destruct (courses_step ms sk _ acc) as [acc'|]; [|discriminate].
    intros H. apply IH in H. rewrite H, <- app_assoc. reflexivity.
Qed.

(** C4: with an empty list of missing skills the aggregator returns the
    empty result and has sent no query to [get_coursera_courses]; in every
    other run that returns, the queries are the labels of the missing
    skills, one each. *)
Theorem empty_gap_property (net : endpoint) (top_k : Z) :
  get_course_recommendations_cached (Ok []) net top_k = (Ok [], []) /\
  (forall ms l calls,
      get_course_recommendations_cached (Ok ms) net top_k = (Ok l, calls) ->
      calls = map skill_label ms).
Proof.
  split; [reflexivity|].
  intros ms l calls. unfold get_course_recommendations_cached.
  destruct ms as [|sk ms]; [intros H; injection H as _ <-; reflexivity|].
  destruct (fetch_loop net (sk :: ms) (sk :: ms) [] []) as [[all|e] calls']
    eqn:E; [|discriminate].
  intros H. injection H as _ <-.
  apply fetch_loop_calls in E. exact E.
Qed.

(** *** Sorting and slicing *)

Lemma insert_desc_perm (x : recommendation) (l : list recommendation) :
  Permutation (insert_desc x l) (x :: l).
Proof.
  induction l as [|y l IH]; simpl; [reflexivity|].
  destruct (Qlt_le_dec (rec_score x) (rec_score y)); [|reflexivity].
  rewrite IH. apply perm_swap.
Qed.

Lemma sort_desc_perm (l : list recommendation) : Permutation (sort_desc l) l.
Proof.
  induction l as [|x l IH]; simpl; [reflexivity|].
  rewrite insert_desc_perm. now constructor.
Qed.

Lemma insert_desc_sorted (x : recommendation) (l : list recommendation) :
  sorted_desc l -> sorted_desc (insert_desc x l).
Proof.
  induction 1 as [|y|y z l Hzy Hs IH]; simpl.
  - constructor.
  - destruct (Qlt_le_dec (rec_score x) (rec_score y)) as [Hlt|Hle];
      constructor; try constructor; lra.
  - simpl in IH.
    destruct (Qlt_le_dec (rec_score x) (rec_score y)) as [Hlt|Hle].
    + destruct (Qlt_le_dec (rec_score x) (rec_score z)) as [Hlt'|Hle'].
      * constructor; assumption.
      * constructor; [lra|exact IH].
    + constructor; [exact Hle|]. constructor; assumption.
Qed.

Lemma sort_desc_sorted (l : list recommendation) : sorted_desc (sort_desc l).
Proof.
  induction l as [|x l IH]; simpl; [constructor|].
  apply insert_desc_sorted, IH.
Qed.

Lemma insert_desc_stable (q : Q) (x : recommendation)
    (l : list recommendation) :
  with_score q (insert_desc x l) = with_score q (x :: l).
Proof.
  induction l as [|y l IH]; [reflexivity|]. cbn [insert_desc].
  destruct (Qlt_le_dec (rec_score x) (rec_score y)) as [Hlt|Hle];
    [|reflexivity].
  unfold with_score in *. cbn [filter] in *. rewrite IH.
  destruct (Qeq_bool (rec_score x) q) eqn:Ex;
    destruct (Qeq_bool (rec_score y) q) eqn:Ey; try reflexivity.
  apply Qeq_bool_iff in Ex, Ey. rewrite Ex, Ey in Hlt. lra.
Qed.

Lemma sort_desc_stable (q : Q) (l : list recommendation) :
  with_score q (sort_desc l) = with_score q l.
Proof.
  induction l as [|x l IH]; [reflexivity|]. simpl sort_desc.
  rewrite insert_desc_stable. unfold with_score in *. simpl. now rewrite IH.
Qed.

Lemma sorted_desc_tail (x : recommendation) (l : list recommendation) :
  sorted_desc (x :: l) -> sorted_desc l.
Proof. inversion 1; subst; [constructor|assumption]. Qed.

Lemma sorted_desc_firstn (n : nat) (l : list recommendation) :
  sorted_desc l -> sorted_desc (firstn n l).
Proof.
  revert l. induction n as [|n IH]; intros l Hs; [constructor|].
  destruct l as [|x l]; [constructor|]. simpl.
  pose proof (IH l (sorted_desc_tail Hs)) as Hl.
  destruct l as [|y l]; [destruct n; constructor|].
  destruct n as [|n]; [constructor|]. simpl in *.
  inversion Hs; subst. constructor; assumption.
Qed.

Lemma slice_to_firstn {A : Type} (l : list A) (k : Z) :
  exists n, slice_to l k = firstn n l /\ (0 <= k -> Z.of_nat n <= k)%Z.
Proof.
  unfold slice_to. destruct (k <? 0)%Z eqn:E.
  - eexists. split; [reflexivity|]. apply Z.ltb_lt in E. lia.
  - eexists. split; [reflexivity|]. lia.
Qed.

(** The sorted and cut list, for any [top_k]. *)
Lemma ranking_of_slice (missing : res (list missing_skill)) (net : endpoint)
    (top_k : Z) (l : list recommendation) :
  fst (get_course_recommendations_cached missing net top_k) = Ok l ->
  sorted_desc l /\
  ((0 <= top_k)%Z -> (Z.of_nat (length l) <= top_k)%Z) /\
  Forall (fun r => 0 < rec_score r) l /\
  exists ms all_courses,
    missing = Ok ms /\
    fst (fetch_loop net ms ms [] []) = Ok all_courses /\
    forall q, exists rest,
      with_score q all_courses = with_score q l ++ rest.
Proof.
  unfold get_course_recommendations_cached.
  destruct missing as [ms|e]; [|discriminate].
  assert (forall all_courses,
             fst (fetch_loop net ms ms [] []) = Ok all_courses ->
             l = slice_to (sort_desc all_courses) top_k ->
             sorted_desc l /\
             ((0 <= top_k)%Z -> (Z.of_nat (length l) <= top_k)%Z) /\
             Forall (fun r => 0 < rec_score r) l /\
             exists ms' all',
               Ok ms = Ok ms' /\
               fst (fetch_loop net ms' ms' [] []) = Ok all' /\
               forall q, exists rest,
                 with_score q all' = with_score q l ++ rest) as Hmain.
  { intros all Hall ->.
    destruct (slice_to_firstn (sort_desc all) top_k) as [n [-> Hn]].
    split; [apply sorted_desc_firstn, sort_desc_sorted|].
    split.
    { intros Hk. specialize (Hn Hk).
      assert (length (firstn n (sort_desc all)) <= n)%nat
        by (rewrite length_firstn; lia).
      lia. }
    split.
    { assert (Forall (fun r => 0 < rec_score r) (sort_desc all)) as Hpos.
      { eapply Permutation_Forall; [symmetry; apply sort_desc_perm|].
        eapply fetch_loop_pos; [constructor|exact Hall]. }
      rewrite Forall_forall in *. intros r Hr. apply Hpos.
      rewrite <- (firstn_skipn n (sort_desc all)). apply in_or_app. now left. }
    exists ms, all. split; [reflexivity|]. split; [exact Hall|].
    intros q. exists (with_score q (skipn n (sort_desc all))).
    rewrite <- (sort_desc_stable q all). unfold with_score.
    rewrite <- filter_app, firstn_skipn. reflexivity. }
  destruct ms as [|sk ms].
  - simpl. intros H. injection H as <-. apply (Hmain []); [reflexivity|].
    unfold slice_to. simpl. destruct (top_k <? 0)%Z; now rewrite firstn_nil.
  - destruct (fetch_loop net (sk :: ms) (sk :: ms) [] []) as [[all|e] calls]
      eqn:E; simpl; [|discriminate].
    intros H. injection H as <-. apply (Hmain all); reflexivity.
Qed.

(** C1: for a number [top_k] of entries asked for, the list the aggregator
    returns is in non-increasing order of total score, has at most [top_k]
    entries, holds only entries with a total score above 0, and lists the
    entries of any one score in the order in which the fetch loop met them.
    The scores compared are the float totals of the scoring function. *)
Theorem ranking_property (missing : res (list missing_skill)) (net : endpoint)
    (top_k : Z) (l : list recommendation) :
  (0 <= top_k)%Z ->
  fst (get_course_recommendations_cached missing net top_k) = Ok l ->
  sorted_desc l /\
  (Z.of_nat (length l) <= top_k)%Z /\
  Forall (fun r => 0 < rec_score r) l /\
  exists ms all_courses,
    missing = Ok ms /\
    fst (fetch_loop net ms ms [] []) = Ok all_courses /\
    forall q, exists rest,
      with_score q all_courses = with_score q l ++ rest.
Proof.
  intros Hk H. destruct (ranking_of_slice _ _ _ H) as [Hs [Hl [Hp Hst]]].
  split; [exact Hs|]. split; [exact (Hl Hk)|]. split; assumption.
Qed.

(** C5 (as amended): when no missing skill reaches a weighted score above
    0.3 against a course, the score being the float that the program
    computes, the scoring function still returns its dict, with total score
    0 and an empty trace, and it is the aggregator that leaves the course
    out of [all_courses]. *)
Theorem no_match_excluded (c : pyval) (cn cd : string)
    (ms : list missing_skill) :
  element_texts c = Ok (cn, cd) ->
  (forall sk, In sk ms -> combined sk cn cd <= 3 # 10) ->
  calculate_course_match_score (wrap c) ms = Ok (Scored 0 []) /\
  (forall sk acc, course_step ms sk acc c = Ok acc).
Proof.
  intros Htexts Hall.
  assert (forall st, for_each (skill_step cn cd) ms st = Ok st) as Hloop.
  { induction ms as [|sk ms IH]; intros [t m]; cbn [for_each]; [reflexivity|].
    rewrite skill_step_eq.
    destruct (Qlt_le_dec _ _) as [Hlt|_].
    - specialize (Hall sk (or_introl eq_refl)).
      apply above_threshold in Hlt. lra.
    - cbn [bind]. apply IH. intros sk' Hin. apply Hall. now right. }
  assert (calculate_course_match_score (wrap c) ms = Ok (Scored 0 [])) as Hs.
  { rewrite score_wrap, element_step_eq, Htexts. cbn [bind fst snd].
    rewrite Hloop. reflexivity. }
  split; [exact Hs|].
  intros sk acc. unfold course_step. fold (wrap c). rewrite Hs. reflexivity.
Qed.

(** C5 as stated fails: for a course that no missing skill matches the
    scoring function returns a dict, not an absent value. *)
Lemma no_match_returns_dict :
  let ms := [ {| skill_label := "a"; occupation_skill_level := "optional";
                 experience_level := None |} ] in
  let c := PyDict [("name", PyStr "b"); ("description", PyStr "c")] in
  ms <> [] /\
  (forall sk, In sk ms -> combined sk "b" "c" <= 3 # 10) /\
  calculate_course_match_score (wrap c) ms = Ok (Scored 0 []) /\
  calculate_course_match_score (wrap c) ms <> Ok Zero.
Proof.
  intros ms c. split; [discriminate|]. split; [|split].
  - intros sk [<-|[]]. vm_compute. discriminate.
  - reflexivity.
  - discriminate.
Qed.

(** C9 fails on the bulk path: a fetched element that is [None] (JSON
    [null]) passes the guard inside its wrapping dict and [element.get]
    raises [AttributeError] out of the aggregator; so does an element whose
    name is [null]. *)
Theorem malformed_item_raises :
  fst (get_course_recommendations_cached (Ok [example_skill])
         (fun _ => Ok (PyDict [("elements", PyList [PyNone])])) 3)
  = Raise AttributeError
  /\ fst (get_course_recommendations_cached (Ok [example_skill])
            (fun _ => Ok (PyDict [("elements",
                                   PyList [PyDict [("name", PyNone)]])])) 3)
     = Raise AttributeError
  /\ calculate_course_match_score PyNone [example_skill] = Ok Zero
  /\ calculate_course_match_score (wrap (PyDict [])) [example_skill]
     = Ok (Scored 0 []).
Proof. repeat split. Qed.

(** *** Failures of the content source *)

Lemma fetch_raise_fails (net : endpoint) (sk : missing_skill) (e : exn) :
  net (skill_label sk) = Raise e -> fetch_fails net sk = true.
Proof.
  intros H. unfold fetch_fails, get_coursera_courses. now rewrite H.
Qed.

Lemma no_items_skip (ms : list missing_skill) (sk : missing_skill)
    (courses : pyval) (acc : list recommendation) :
  no_items courses = true -> courses_step ms sk courses acc = Ok acc.
Proof.
  unfold courses_step.
  destruct courses as [| b | n | x | s | l | d]; simpl; intros H;
    try reflexivity.
  - apply negb_true_iff in H. now rewrite H.
  - apply negb_true_iff in H. now rewrite H.
  - apply negb_true_iff in H. now rewrite H.
  - apply negb_true_iff in H. now rewrite H.
  - destruct l; [reflexivity|discriminate].
  - destruct d as [|kv d]; [reflexivity|].
    destruct (dict_get (kv :: d) "elements") as [v|] eqn:E; simpl;
      [|reflexivity].
    destruct v as [| | | | | l' |]; try discriminate.
    destruct l'; [reflexivity|discriminate].
Qed.

Lemma fetch_loop_skip (net : endpoint) (ms todo : list missing_skill)
    (sk : missing_skill) (acc : list recommendation) (calls : list string) :
  fetch_fails net sk = true ->
  fetch_loop net ms (sk :: todo) acc calls =
  fetch_loop net ms todo acc (calls ++ [skill_label sk]).
Proof.
  intros H. cbn [fetch_loop]. now rewrite no_items_skip.
Qed.

Lemma fetch_loop_filter (net : endpoint) (ms todo : list missing_skill)
    (acc : list recommendation) (calls calls' : list string) :
  fst (fetch_loop net ms todo acc calls) =
  fst (fetch_loop net ms (filter (fun sk => negb (fetch_fails net sk)) todo)
         acc calls').
Proof.
  revert acc calls calls'.
  induction todo as [|sk todo IH]; intros acc calls calls'; [reflexivity|].
  cbn [filter]. destruct (fetch_fails net sk) eqn:E; cbn [negb].
  - rewrite fetch_loop_skip by exact E. apply IH.
  - cbn [fetch_loop].
    destruct (courses_step ms sk _ acc) as [acc'|]; [apply IH|reflexivity].
Qed.

Lemma wf_item_texts (c : pyval) :
  wf_item c = true -> exists cn cd, element_texts c = Ok (cn, cd).
Proof.
  destruct c as [| | | | | |d]; try discriminate. unfold wf_item, element_texts.
  intros H. apply andb_true_iff in H. destruct H as [Hn Hd]. simpl.
  destruct (dict_get d "name") as [[| | | |n| |]|]; try discriminate;
    destruct (dict_get d "description") as [[| | | |s| |]|];
    try discriminate; simpl; eauto.
Qed.

Lemma wf_items_scored (ms : list missing_skill) (sk : missing_skill)
    (items : list pyval) (acc : list recommendation) :
  forallb wf_item items = true ->
  exists acc', for_each (course_step ms sk) items acc = Ok acc'.
Proof.
  revert acc. induction items as [|c items IH]; intros acc H; simpl.
  - eauto.
  - simpl in H. apply andb_true_iff in H. destruct H as [Hc Hitems].
    destruct (wf_item_texts c Hc) as [cn [cd Htexts]].
    destruct (course_step_eq ms sk acc c Htexts) as [t [m [_ ->]]].
    simpl. apply IH, Hitems.
Qed.

Lemma wf_payload_scored (ms : list missing_skill) (sk : missing_skill)
    (courses : pyval) (acc : list recommendation) :
  wf_payload courses = true ->
  exists acc', courses_step ms sk courses acc = Ok acc'.
Proof.
  destruct courses as [| | | | | |d]; try discriminate.
  - intros _. exists acc. reflexivity.
  - unfold wf_payload, courses_step.
    destruct d as [|kv d]; [intros _; exists acc; reflexivity|].
    cbn [truthy py_in py_getitem].
    destruct (dict_get (kv :: d) "elements") as [v|]; cbn [bind is_some];
      [|intros _; exists acc; reflexivity].
    destruct v as [| | | | |items|]; try discriminate.
    cbn [py_iter bind]. apply wf_items_scored.
Qed.

Lemma wf_fetch_loop (net : endpoint) (ms todo : list missing_skill)
    (acc : list recommendation) (calls : list string) :
  wf_endpoint net ->
  exists all_courses, fst (fetch_loop net ms todo acc calls) = Ok all_courses.
Proof.
  intros Hnet. revert acc calls.
  induction todo as [|sk todo IH]; intros acc calls; cbn [fetch_loop].
  - exists acc. reflexivity.
  - assert (wf_payload (get_coursera_courses net (skill_label sk)) = true)
      as Hwf.
    { unfold get_coursera_courses. specialize (Hnet (skill_label sk)).
      destruct (net (skill_label sk)); [exact Hnet|reflexivity]. }
    destruct (wf_payload_scored ms sk _ acc Hwf) as [acc' ->]. apply IH.
Qed.

Lemma aggregator_eq (net : endpoint) (ms : list missing_skill) (top_k : Z) :
  fst (get_course_recommendations_cached (Ok ms) net top_k) =
  match fst (fetch_loop net ms ms [] []) with
  | Ok all_courses => Ok (slice_to (sort_desc all_courses) top_k)
  | Raise e => Raise e
  end.
Proof.
  unfold get_course_recommendations_cached. destruct ms as [|sk ms].
  - simpl. unfold slice_to. simpl.
    destruct (top_k <? 0)%Z; now rewrite firstn_nil.
  - destruct (fetch_loop net (sk :: ms) (sk :: ms) [] []) as [[all|e] calls];
      reflexivity.
Qed.

(** C6: what holds and what fails.  A missing skill whose fetch raises, or
    brings [None], an empty container, no ['elements'] or an empty list,
    adds nothing and the loop goes on with the next skill, so the result is
    the one computed over the remaining fetches: with a source that raises
    for "Data Visualization" and answers for "Python", both are queried and
    the course fetched for "Python" is returned.  A failure of the
    knowledge graph is raised to the caller.  But it is not the only
    failure that reaches the caller: when the source answers the first
    query with a payload whose ['elements'] is [null], the test
    ['elements' in courses] passes, the loop over [courses['elements']]
    raises [TypeError] out of the aggregator, and the second skill is never
    queried. *)
Theorem content_source_failure :
  let sk_a := {| skill_label := "Data Visualization";
                 occupation_skill_level := "essential";
                 experience_level := None |} in
  let sk_b := {| skill_label := "Python";
                 occupation_skill_level := "optional";
                 experience_level := None |} in
  let answer := Ok (PyDict [("elements", PyList [example_course])]) in
  let raising : endpoint :=
    fun q => if String.eqb q "Python" then answer
             else Raise (OtherError "ConnectionError") in
  let empty : endpoint :=
    fun q => if String.eqb q "Python" then answer
             else Ok (PyDict [("elements", PyList [])]) in
  let null : endpoint :=
    fun q => if String.eqb q "Python" then answer
             else Ok (PyDict [("elements", PyNone)]) in
  (exists r,
      get_course_recommendations_cached (Ok [sk_a; sk_b]) raising 3 =
      (Ok [r], ["Data Visualization"; "Python"])
      /\ course r = example_course
      /\ target_skill_level r = "optional"
      /\ get_course_recommendations_cached (Ok [sk_a; sk_b]) empty 3 =
         (Ok [r], ["Data Visualization"; "Python"]))
  /\ get_course_recommendations_cached (Ok [sk_a; sk_b]) null 3 =
     (Raise TypeError, ["Data Visualization"])
  /\ (forall net top_k e,
         get_course_recommendations_cached (Raise e) net top_k = (Raise e, []))
  /\ (forall net sk e,
         net (skill_label sk) = Raise e -> fetch_fails net sk = true)
  /\ (forall net ms sk todo acc calls,
         fetch_fails net sk = true ->
         fetch_loop net ms (sk :: todo) acc calls =
         fetch_loop net ms todo acc (calls ++ [skill_label sk]))
  /\ (forall net ms top_k,
         fst (get_course_recommendations_cached (Ok ms) net top_k) =
         match fst (fetch_loop net ms
                      (filter (fun sk => negb (fetch_fails net sk)) ms) [] [])
         with
         | Ok all_courses => Ok (slice_to (sort_desc all_courses) top_k)
         | Raise e => Raise e
         end).
Proof.
  intros sk_a sk_b answer raising empty null.
  split.
  { eexists. split; [vm_compute; reflexivity|].
    split; [reflexivity|]. split; [reflexivity|]. vm_compute. reflexivity. }
  split; [vm_compute; reflexivity|].
  split; [reflexivity|].
  split; [intros net sk e; apply fetch_raise_fails|].
  split; [intros; now apply fetch_loop_skip|].
  intros net ms top_k. rewrite aggregator_eq.
  now rewrite (fetch_loop_filter net ms ms [] [] []).
Qed.

(** ** The matching blocks of difflib *)

Module difflib_facts.
Import difflib difflib_inv.

Local Open Scope nat_scope.

Lemma inner_loop_box (alo ahi blo bhi i : nat) (j2len : j2len_t)
    (js : list nat) (newj2len : j2len_t) (bst : best) :
  alo <= i -> i < ahi ->
  row_bound alo blo i j2len ->
  row_bound alo blo (S i) newj2len ->
  in_box alo ahi blo bhi bst ->
  row_bound alo blo (S i) (fst (inner_loop blo bhi i j2len js newj2len bst))
  /\ in_box alo ahi blo bhi (snd (inner_loop blo bhi i j2len js newj2len bst)).
Proof.
  intros Hlo Hhi Hprev. revert newj2len bst.
  induction js as [|j js IH]; intros newj2len bst Hnew Hbox; simpl.
  - auto.
  - destruct (j <? blo) eqn:Eblo; [apply IH; assumption|].
    destruct (bhi <=? j) eqn:Ebhi; [simpl; auto|].
    apply Nat.ltb_ge in Eblo. apply Nat.leb_gt in Ebhi.
    destruct bst as [[bi bj] bs].
    assert (j2lenget j2len j + 1 <= S i - alo
            /\ j2lenget j2len j + 1 <= j + 1 - blo) as [Hk1 Hk2].
    { destruct j as [|j']; cbn [j2lenget].
      - lia.
      - destruct (Hprev j') as [H1 H2]. lia. }
    apply IH.
    + intros j'. unfold j2len_set.
      destruct (Nat.eqb j' j) eqn:E.
      * apply Nat.eqb_eq in E. subst j'. lia.
      * apply Hnew.
    + destruct (bs <? j2lenget j2len j + 1); [|exact Hbox].
      simpl. lia.
Qed.

Lemma outer_fold_box (a b : list elt) (alo ahi blo bhi : nat) (len start : nat)
    (st : j2len_t * best) :
  alo <= start -> start + len <= ahi ->
  row_bound alo blo start (fst st) ->
  in_box alo ahi blo bhi (snd st) ->
  in_box alo ahi blo bhi
    (snd (fold_left (outer_step a b blo bhi) (seq start len) st)).
Proof.
  revert start st. induction len as [|len IH]; intros start [j2len bst];
    simpl; intros Hlo Hhi Hrow Hbox.
  - exact Hbox.
  - assert (row_bound alo blo (S start) j2len_empty) as Hempty.
    { intros j. unfold j2len_empty. lia. }
    match goal with
    | |- context [inner_loop blo bhi start j2len ?js j2len_empty bst] =>
        destruct (@inner_loop_box alo ahi blo bhi start j2len js j2len_empty
                    bst Hlo ltac:(lia) Hrow Hempty Hbox) as [H1 H2];
        destruct (inner_loop blo bhi start j2len js j2len_empty bst)
          as [j2len' bst']
    end.
    apply IH; simpl in *; try assumption; lia.
Qed.

Lemma outer_loop_box (a b : list elt) (alo ahi blo bhi : nat) :
  alo <= ahi -> blo <= bhi ->
  in_box alo ahi blo bhi (outer_loop a b alo ahi blo bhi).
Proof.
  intros Ha Hb. unfold outer_loop. apply outer_fold_box; simpl; try lia.
  intros j. unfold j2len_empty. lia.
Qed.

Lemma extend_left_box (a b : list elt) (alo ahi blo bhi : nat)
    (besti bestj bestsize : nat) :
  in_box alo ahi blo bhi (besti, bestj, bestsize) ->
  in_box alo ahi blo bhi (extend_left a b alo blo besti bestj bestsize).
Proof.
  revert bestj bestsize. induction besti as [|i' IH]; intros bestj bestsize H.
  - destruct bestj; exact H.
  - destruct bestj as [|j']; [exact H|]. cbn [extend_left].
    destruct ((alo <? S i') && (blo <? S j') && same_at a b i' j') eqn:E;
      [|exact H].
    apply andb_true_iff in E. destruct E as [E _].
    apply andb_true_iff in E. destruct E as [E1 E2].
    apply Nat.ltb_lt in E1, E2. apply IH. simpl in *. lia.
Qed.

Lemma extend_right_box (a b : list elt) (alo ahi blo bhi : nat)
    (besti bestj bestsize fuel : nat) :
  in_box alo ahi blo bhi (besti, bestj, bestsize) ->
  in_box alo ahi blo bhi (extend_right a b ahi bhi besti bestj bestsize fuel).
Proof.
  revert bestsize. induction fuel as [|fuel IH]; intros bestsize H; simpl.
  - exact H.
  - destruct ((besti + bestsize <? ahi) && (bestj + bestsize <? bhi)
              && same_at a b (besti + bestsize) (bestj + bestsize)) eqn:E;
      [|exact H].
    apply andb_true_iff in E. destruct E as [E _].
    apply andb_true_iff in E. destruct E as [E1 E2].
    apply Nat.ltb_lt in E1, E2. apply IH. simpl in *. lia.
Qed.

(** The fuel of the second [while] is enough: past the turns its guard
    leaves, more fuel changes nothing. *)
Lemma extend_right_fuel (a b : list elt) (ahi bhi besti bestj : nat)
    (fuel bestsize : nat) :
  ahi - (besti + bestsize) <= fuel ->
  extend_right a b ahi bhi besti bestj bestsize (S fuel) =
  extend_right a b ahi bhi besti bestj bestsize fuel.
Proof.
  revert bestsize. induction fuel as [|fuel IH]; intros bestsize H.
  - cbn [extend_right].
    assert ((besti + bestsize <? ahi) = false) as ->
      by (apply Nat.ltb_ge; lia).
    reflexivity.
  - change (extend_right a b ahi bhi besti bestj bestsize (S (S fuel)))
      with (if (besti + bestsize <? ahi) && (bestj + bestsize <? bhi)
               && same_at a b (besti + bestsize) (bestj + bestsize)
            then extend_right a b ahi bhi besti bestj (S bestsize) (S fuel)
            else (besti, bestj, bestsize)).
    change (extend_right a b ahi bhi besti bestj bestsize (S fuel))
      with (if (besti + bestsize <? ahi) && (bestj + bestsize <? bhi)
               && same_at a b (besti + bestsize) (bestj + bestsize)
            then extend_right a b ahi bhi besti bestj (S bestsize) fuel
            else (besti, bestj, bestsize)).
    destruct ((besti + bestsize <? ahi) && (bestj + bestsize <? bhi)
              && same_at a b (besti + bestsize) (bestj + bestsize));
      [|reflexivity].
    apply IH. lia.
Qed.


Lemma find_longest_match_box (a b : list elt) (alo ahi blo bhi : nat) :
  alo <= ahi -> blo <= bhi ->
  in_box alo ahi blo bhi (find_longest_match a b alo ahi blo bhi).
Proof.
  intros Ha Hb. unfold find_longest_match.
  pose proof (outer_loop_box a b Ha Hb) as H.
  destruct (outer_loop a b alo ahi blo bhi) as [[i j] k].
  apply (extend_left_box a b) in H.
  destruct (extend_left a b alo blo i j k) as [[i' j'] k'].
  now apply extend_right_box.
Qed.

(** *** The work queue *)

Lemma fold_size (l : list best) (s : nat) :
  fold_left (fun s (x : best) => s + snd x) l s = s + total l.
Proof.
  unfold total. revert s. induction l as [|x l IH]; intros s; simpl.
  - lia.
  - rewrite IH, (IH (snd x)). lia.
Qed.

Lemma total_nil : total [] = 0.
Proof. reflexivity. Qed.

Lemma total_cons (x : best) (l : list best) : total (x :: l) = snd x + total l.
Proof. unfold total. simpl. now rewrite fold_size. Qed.

Lemma total_app (l1 l2 : list best) : total (l1 ++ l2) = total l1 + total l2.
Proof.
  induction l1 as [|x l1 IH]; [reflexivity|].
  simpl app. rewrite !total_cons, IH. lia.
Qed.

Lemma sum_of_app (w : rect -> nat) (q1 q2 : list rect) :
  sum_of w (q1 ++ q2) = sum_of w q1 + sum_of w q2.
Proof.
  induction q1 as [|r q1 IH]; simpl; [reflexivity|]. rewrite IH. lia.
Qed.

Lemma sum_of_cons (w : rect -> nat) (r : rect) (q : list rect) :
  sum_of w (r :: q) = w r + sum_of w q.
Proof. reflexivity. Qed.

Lemma pushes_spec (alo ahi blo bhi i j k : nat) :
  in_box alo ahi blo bhi (i, j, k) ->
  Forall valid_rect (pushes (alo, ahi, blo, bhi) (i, j, k))
  /\ sum_of wa (pushes (alo, ahi, blo, bhi) (i, j, k)) + k <= ahi - alo
  /\ sum_of wb (pushes (alo, ahi, blo, bhi) (i, j, k)) + k <= bhi - blo
  /\ (0 < k ->
      turns (pushes (alo, ahi, blo, bhi) (i, j, k)) <= 2 * (ahi - alo)).
Proof.
  intros (H1 & H2 & H3 & H4). unfold pushes, turns.
  destruct ((i + k <? ahi) && (j + k <? bhi));
    destruct ((alo <? i) && (blo <? j)); simpl;
    repeat split; repeat constructor; simpl; lia.
Qed.

Lemma blocks_loop_total (a b : list elt) (fuel : nat) (q : list rect)
    (acc : list best) :
  Forall valid_rect q ->
  total (blocks_loop a b fuel q acc) <= total acc + sum_of wa q
  /\ total (blocks_loop a b fuel q acc) <= total acc + sum_of wb q.
Proof.
  revert q acc. induction fuel as [|fuel IH]; intros q acc Hq.
  - simpl. lia.
  - destruct q as [|[[[alo ahi] blo] bhi] q]; [simpl; lia|].
    inversion Hq as [|r q' Hr Hq']; subst. destruct Hr as [Ha Hb]. cbn [blocks_loop].
    pose proof (find_longest_match_box a b Ha Hb) as Hbox.
    destruct (find_longest_match a b alo ahi blo bhi) as [[i j] k].
    destruct (Nat.eqb k 0) eqn:Ek.
    + destruct (IH q acc Hq') as [H1 H2]. rewrite !sum_of_cons. lia.
    + destruct (pushes_spec Hbox) as (Hv & Hwa & Hwb & _).
      set (P := pushes (alo, ahi, blo, bhi) (i, j, k)) in *.
      destruct (IH (P ++ q) (acc ++ [(i, j, k)])) as [H1 H2].
      { apply Forall_app. split; assumption. }
      rewrite total_app, total_cons, sum_of_app in H1, H2.
      change (total []) with 0 in H1, H2. cbn [snd] in H1, H2.
      rewrite !sum_of_cons.
      change (wa (alo, ahi, blo, bhi)) with (ahi - alo).
      change (wb (alo, ahi, blo, bhi)) with (bhi - blo).
      clearbody P.
      split; [apply (Nat.le_trans _ _ _ H1)|apply (Nat.le_trans _ _ _ H2)];
        lia.
Qed.

(** With the turns the queue can take, one more unit of fuel changes
    nothing: the loop has ended on an empty queue. *)
Lemma blocks_loop_fuel (a b : list elt) (fuel : nat) (q : list rect)
    (acc : list best) :
  Forall valid_rect q -> turns q <= fuel ->
  blocks_loop a b (S fuel) q acc = blocks_loop a b fuel q acc.
Proof.
  revert q acc. induction fuel as [|fuel IH]; intros q acc Hq Hfuel.
  - destruct q as [|[[[alo ahi] blo] bhi] q]; [reflexivity|].
    unfold turns in Hfuel. simpl in Hfuel. lia.
  - destruct q as [|[[[alo ahi] blo] bhi] q]; [reflexivity|].
    inversion Hq as [|r q' Hr Hq']; subst. destruct Hr as [Ha Hb].
    change (blocks_loop a b (S (S fuel)) ((alo, ahi, blo, bhi) :: q) acc)
      with (let x := find_longest_match a b alo ahi blo bhi in
            let '(_, _, k) := x in
            if Nat.eqb k 0 then blocks_loop a b (S fuel) q acc
            else blocks_loop a b (S fuel) (pushes (alo, ahi, blo, bhi) x ++ q)
                   (acc ++ [x])).
    change (blocks_loop a b (S fuel) ((alo, ahi, blo, bhi) :: q) acc)
      with (let x := find_longest_match a b alo ahi blo bhi in
            let '(_, _, k) := x in
            if Nat.eqb k 0 then blocks_loop a b fuel q acc
            else blocks_loop a b fuel (pushes (alo, ahi, blo, bhi) x ++ q)
                   (acc ++ [x])).
    pose proof (find_longest_match_box a b Ha Hb) as Hbox.
    destruct (find_longest_match a b alo ahi blo bhi) as [[i j] k].
    cbv zeta. unfold turns in Hfuel. rewrite sum_of_cons in Hfuel.
    change (wa (alo, ahi, blo, bhi)) with (ahi - alo) in Hfuel.
    fold (turns q) in Hfuel.
    destruct (pushes_spec Hbox) as (Hv & _ & _ & Ht).
    destruct k as [|k]; cbn [Nat.eqb].
    + apply IH; [assumption|]. lia.
    + set (P := pushes (alo, ahi, blo, bhi) (i, j, S k)) in *.
      apply IH.
      * apply Forall_app. split; assumption.
      * unfold turns in *. rewrite sum_of_app. specialize (Ht ltac:(lia)).
        clearbody P. lia.
Qed.

(** *** Sorting and merging keep the matched length *)

Lemma insert_block_total (x : best) (l : list best) :
  total (insert_block x l) = snd x + total l.
Proof.
  induction l as [|y l IH]; simpl.
  - now rewrite total_cons.
  - destruct (best_leb x y); rewrite !total_cons; [reflexivity|].
    rewrite IH. lia.
Qed.

Lemma sort_blocks_total (l : list best) : total (sort_blocks l) = total l.
Proof.
  induction l as [|x l IH]; [reflexivity|]. simpl.
  now rewrite insert_block_total, total_cons, IH.
Qed.

Lemma collapse_total (cur : best) (l acc : list best) :
  total (collapse cur l acc) = total acc + snd cur + total l.
Proof.
  revert cur acc. induction l as [|[[i2 j2] k2] l IH];
    intros [[i1 j1] k1] acc.
  - cbn [collapse]. destruct (Nat.eqb k1 0) eqn:E.
    + apply Nat.eqb_eq in E. subst. rewrite total_nil. cbn [snd]. lia.
    + rewrite total_app, total_cons, !total_nil. cbn [snd]. lia.
  - cbn [collapse].
    destruct ((i1 + k1 =? i2) && (j1 + k1 =? j2)).
    + rewrite IH, total_cons. cbn [snd]. lia.
    + rewrite IH, total_cons. destruct (Nat.eqb k1 0) eqn:E.
      * apply Nat.eqb_eq in E. subst. cbn [snd]. lia.
      * rewrite total_app, total_cons, total_nil. cbn [snd]. lia.
Qed.

(** The matched length is the total size of the blocks found by the queue
    loop, and at most the length of either sequence. *)
Lemma matches_loop (a b : list elt) :
  matches a b =
  total (blocks_loop a b (queue_fuel (length a)) [(0, length a, 0, length b)]
           []).
Proof.
  unfold matches, get_matching_blocks. fold (total
    (collapse (0, 0, 0)
       (sort_blocks
          (blocks_loop a b (queue_fuel (length a))
             [(0, length a, 0, length b)] [])) [] ++ [(length a, length b, 0)])).
  rewrite total_app, collapse_total, sort_blocks_total, total_cons.
  change (total []) with 0. cbn [snd]. now rewrite !Nat.add_0_r.
Qed.

Lemma matches_bound (a b : list elt) :
  matches a b <= length a /\ matches a b <= length b.
Proof.
  rewrite matches_loop.
  destruct (@blocks_loop_total a b (queue_fuel (length a))
              [(0, length a, 0, length b)] []) as [H1 H2].
  { repeat constructor; lia. }
  rewrite total_nil, sum_of_cons in H1, H2. simpl in H1, H2. lia.
Qed.

(** The fuel given to the queue loop is enough for it to end. *)
Lemma queue_fuel_enough (a b : list elt) (extra : nat) :
  blocks_loop a b (queue_fuel (length a) + extra)
    [(0, length a, 0, length b)] [] =
  blocks_loop a b (queue_fuel (length a)) [(0, length a, 0, length b)] [].
Proof.
  induction extra as [|extra IH].
  - now rewrite Nat.add_0_r.
  - rewrite Nat.add_succ_r, blocks_loop_fuel; [exact IH| |].
    + repeat constructor; lia.
    + unfold turns, queue_fuel. simpl. lia.
Qed.

(** *** A sequence matched against itself *)

Lemma inner_loop_diag (s : list elt) (i : nat) (x : elt) (j2len : j2len_t) :
  nth_error s i = Some x -> popular s x = false ->
  prev_row s i j2len ->
  forall (bsuf : list elt) (start : nat) (newj2len : j2len_t) (bst : best),
    start + length bsuf = length s ->
    (forall p, nth_error bsuf p = nth_error s (start + p)) ->
    (forall j, newj2len j <= run s (S i) /\ newj2len j <= run s (S j)) ->
    diag_best s i bst ->
    (i < start ->
     run s (S i) <= snd bst /\ newj2len i = run s (S i)) ->
    let r := inner_loop 0 (length s) i j2len (indices_from x bsuf start)
               newj2len bst in
    (forall j, fst r j <= run s (S i) /\ fst r j <= run s (S j))
    /\ fst r i = run s (S i)
    /\ diag_best s (S i) (snd r).
Proof.
  intros Hx Hpop [Hprev Hdiag].
  assert (kept s i = true) as Hki by (unfold kept; now rewrite Hx, Hpop).
  assert (run s (S i) = run s i + 1) as Hri by (simpl; now rewrite Hki).
  assert (i < length s) as Hi by (apply nth_error_Some; congruence).
  induction bsuf as [|y bsuf IH];
    intros start newj2len [[bi bj] bs] Hlen Hsuf Hnew Hbest Hdone.
  - simpl in *. assert (i < start) as Hlt by lia.
    destruct (Hdone Hlt) as [H1 H2]. destruct Hbest as [Hd Hb].
    repeat split; try apply Hnew; auto.
    intros i' Hi'. destruct (Nat.eq_dec i' (S i)) as [->|]; [exact H1|].
    apply Hb. lia.
  - simpl in Hlen.
    assert (nth_error s start = Some y) as Hy.
    { specialize (Hsuf 0). simpl in Hsuf. now rewrite Nat.add_0_r in Hsuf. }
    assert (forall p, nth_error bsuf p = nth_error s (S start + p)) as Hsuf'.
    { intros p. specialize (Hsuf (S p)). simpl in Hsuf.
      now rewrite Nat.add_succ_r in Hsuf. }
    cbn [indices_from]. destruct (Ascii.eqb x y) eqn:Exy.
    + apply Ascii.eqb_eq in Exy. subst y.
      cbn [inner_loop]. change (start <? 0) with false. cbv iota.
      assert ((length s <=? start) = false) as -> by (apply Nat.leb_gt; lia).
      assert (kept s start = true) as Hks
        by (unfold kept; now rewrite Hy, Hpop).
      assert (run s (S start) = run s start + 1) as Hrs
        by (simpl; now rewrite Hks).
      destruct (Hprev start) as [Hk1 Hk2]. destruct Hbest as [Hd Hb].
      set (k := j2lenget j2len start + 1) in *.
      apply IH; try assumption; try lia.
      * intros j. unfold j2len_set. destruct (Nat.eqb j start) eqn:E.
        -- apply Nat.eqb_eq in E. subst j. lia.
        -- apply Hnew.
      * destruct (bs <? k) eqn:Ek; [|split; assumption].
        apply Nat.ltb_lt in Ek.
        assert (start = i) as ->.
        { destruct (Nat.lt_trichotomy start i) as [Hlt|[Heq|Hgt]];
            [|exact Heq|].
          - specialize (Hb (S start) Hlt). lia.
          - destruct (Hdone Hgt) as [H1 _]. cbn [snd] in H1. lia. }
        split; [reflexivity|]. intros i' Hi'. specialize (Hb i' Hi'). lia.
      * intros Hlt. unfold j2len_set.
        destruct (Nat.eqb i start) eqn:E.
        -- apply Nat.eqb_eq in E. subst start. unfold k. rewrite Hdiag.
           split; [|lia].
           destruct (bs <? run s i + 1) eqn:Ek; cbn [snd].
           ++ lia.
           ++ apply Nat.ltb_ge in Ek. lia.
        -- apply Nat.eqb_neq in E. destruct (Hdone ltac:(lia)) as [H1 H2].
           split; [|exact H2]. cbn [snd] in *.
           destruct (bs <? k) eqn:Ek; cbn [snd]; [|exact H1].
           apply Nat.ltb_lt in Ek. lia.
    + apply IH; try assumption; try lia.
      intros Hlt. apply Hdone.
      destruct (Nat.eq_dec i start) as [->|]; [|lia].
      rewrite Hx in Hy. injection Hy as <-.
      now rewrite Ascii.eqb_refl in Exy.
Qed.

Lemma outer_step_diag (s : list elt) (i : nat) (j2len : j2len_t) (bst : best) :
  i < length s ->
  prev_row s i j2len -> diag_best s i bst ->
  let r := outer_step s s 0 (length s) (j2len, bst) i in
  prev_row s (S i) (fst r) /\ diag_best s (S i) (snd r).
Proof.
  intros Hi Hprev Hbest. unfold outer_step.
  destruct (nth_error s i) as [x|] eqn:Hx;
    [|apply nth_error_None in Hx; lia].
  assert (forall J b',
             (forall j, J j <= run s (S i) /\ J j <= run s (S j)) ->
             J i = run s (S i) -> diag_best s (S i) b' ->
             prev_row s (S i) J /\ diag_best s (S i) b') as Hpack.
  { intros J b' HJ HJi Hb. split; [|exact Hb]. split; [|exact HJi].
    intros [|j]; cbn [j2lenget]; [lia|]. destruct (HJ j). lia. }
  unfold b2j_get. destruct (popular s x) eqn:Hpop.
  - cbn [inner_loop fst snd].
    assert (run s (S i) = 0) as Hr0
      by (simpl; unfold kept; now rewrite Hx, Hpop).
    apply Hpack.
    + intros j. unfold j2len_empty. lia.
    + unfold j2len_empty. lia.
    + destruct bst as [[bi bj] bs]. destruct Hbest as [Hd Hb].
      split; [exact Hd|]. intros i' Hi'.
      destruct (Nat.eq_dec i' (S i)) as [->|]; [lia|]. apply Hb. lia.
  - destruct (@inner_loop_diag s i x j2len Hx Hpop Hprev s 0 j2len_empty bst)
      as (H1 & H2 & H3); try reflexivity; try exact Hbest; try lia.
    + intros j. unfold j2len_empty. lia.
    + apply Hpack; assumption.
Qed.

Lemma outer_fold_diag (s : list elt) (len start : nat) (st : j2len_t * best) :
  start + len <= length s ->
  prev_row s start (fst st) -> diag_best s start (snd st) ->
  diag_best s (start + len)
    (snd (fold_left (outer_step s s 0 (length s)) (seq start len) st)).
Proof.
  revert start st. induction len as [|len IH]; intros start [j2len bst] Hlen
    Hprev Hbest; cbn [seq fold_left].
  - now rewrite Nat.add_0_r.
  - destruct (@outer_step_diag s start j2len bst ltac:(lia) Hprev Hbest)
      as [H1 H2].
    rewrite Nat.add_succ_r, <- Nat.add_succ_l. apply IH; [lia| |].
    + destruct (outer_step s s 0 (length s) (j2len, bst) start); exact H1.
    + destruct (outer_step s s 0 (length s) (j2len, bst) start); exact H2.
Qed.

Lemma same_at_refl (s : list elt) (i : nat) :
  i < length s -> same_at s s i i = true.
Proof.
  intros Hi. unfold same_at.
  destruct (nth_error s i) eqn:E; [apply Ascii.eqb_refl|].
  apply nth_error_None in E. lia.
Qed.

Lemma extend_left_self (s : list elt) (i k : nat) :
  i <= length s -> extend_left s s 0 0 i i k = (0, 0, k + i).
Proof.
  revert k. induction i as [|i IH]; intros k Hi; cbn [extend_left].
  - now rewrite Nat.add_0_r.
  - rewrite same_at_refl by lia. cbn [Nat.ltb Nat.leb andb].
    rewrite IH by lia. f_equal. lia.
Qed.

Lemma extend_right_self (s : list elt) (fuel k : nat) :
  k + fuel = length s ->
  extend_right s s (length s) (length s) 0 0 k fuel = (0, 0, length s).
Proof.
  revert k. induction fuel as [|fuel IH]; intros k Hk; cbn [extend_right].
  - f_equal. lia.
  - cbn [Nat.add]. rewrite same_at_refl by lia.
    assert ((k <? length s) = true) as -> by (apply Nat.ltb_lt; lia).
    cbn [andb]. apply IH. lia.
Qed.

Lemma find_longest_match_self (s : list elt) :
  find_longest_match s s 0 (length s) 0 (length s) = (0, 0, length s).
Proof.
  unfold find_longest_match.
  pose proof (@outer_loop_box s s 0 (length s) 0 (length s) ltac:(lia)
                ltac:(lia)) as Hbox.
  assert (diag_best s (length s) (outer_loop s s 0 (length s) 0 (length s)))
    as Hdiag.
  { unfold outer_loop. rewrite Nat.sub_0_r.
    apply (@outer_fold_diag s (length s) 0 (j2len_empty, (0, 0, 0)));
      cbn [fst snd].
    - lia.
    - split; [|reflexivity]. intros [|j]; cbn; unfold j2len_empty; lia.
    - split; [reflexivity|]. intros i' Hi'.
      assert (i' = 0) as -> by lia. simpl. lia. }
  destruct (outer_loop s s 0 (length s) 0 (length s)) as [[i j] k].
  destruct Hdiag as [<- _]. destruct Hbox as (_ & Hik & _).
  rewrite extend_left_self by lia. cbn [Nat.add].
  apply extend_right_self. lia.
Qed.

Lemma blocks_loop_self (s : list elt) :
  total (blocks_loop s s (queue_fuel (length s))
           [(0, length s, 0, length s)] []) = length s.
Proof.
  unfold queue_fuel. rewrite Nat.add_1_r. cbn [blocks_loop].
  rewrite find_longest_match_self.
  destruct (length s) as [|n] eqn:E; cbn [Nat.eqb].
  - destruct (2 * 0); reflexivity.
  - unfold pushes. rewrite Nat.ltb_irrefl. cbn [Nat.add andb app].
    rewrite Nat.ltb_irrefl. cbn [andb app].
    destruct (2 * S n); cbn [blocks_loop app];
      rewrite total_cons, total_nil; cbn [snd]; lia.
Qed.

Lemma matches_self (s : list elt) : matches s s = length s.
Proof. rewrite matches_loop. apply blocks_loop_self. Qed.

(** *** The ratio *)

Lemma ratio_numerator (z : Z) :
  (binary64.fmul 2 (binary64.of_int z) == binary64.rnd (inject_Z (2 * z)))%Q.
Proof.
  unfold binary64.fmul, binary64.of_int.
  rewrite binary64_facts.rnd_scale, binary64_facts.rnd_idem.
  rewrite <- binary64_facts.rnd_scale. apply binary64_facts.rnd_comp.
  rewrite inject_Z_mult. reflexivity.
Qed.

Lemma ratio_denominator (t : nat) :
  t <> 0 -> (0 < binary64.of_int (Z.of_nat t))%Q.
Proof.
  intros H. apply binary64_facts.rnd_pos_lt.
  change 0%Q with (inject_Z 0). rewrite <- Zlt_Qlt. lia.
Qed.

Lemma calculate_ratio_range (m t : nat) :
  2 * m <= t -> (0 <= _calculate_ratio m t <= 1)%Q.
Proof.
  intros H. unfold _calculate_ratio. destruct (Nat.eqb t 0) eqn:E.
  - split; discriminate.
  - apply Nat.eqb_neq in E.
    pose proof (ratio_denominator E) as Ht.
    pose proof (ratio_numerator (Z.of_nat m)) as Hn.
    assert (0 <= binary64.fmul 2 (binary64.of_int (Z.of_nat m)))%Q as H0.
    { rewrite Hn. apply binary64_facts.rnd_nonneg.
      change 0%Q with (inject_Z 0). rewrite <- Zle_Qle. lia. }
    assert (binary64.fmul 2 (binary64.of_int (Z.of_nat m))
            <= binary64.of_int (Z.of_nat t))%Q as H1.
    { rewrite Hn. apply binary64_facts.rnd_mono. rewrite <- Zle_Qle. lia. }
    unfold binary64.fdiv. split.
    + apply binary64_facts.rnd_nonneg.
      apply Qle_shift_div_l; [exact Ht|]. rewrite Qmult_0_l. exact H0.
    + rewrite <- binary64_facts.rnd_1. apply binary64_facts.rnd_mono.
      apply Qle_shift_div_r; [exact Ht|]. rewrite Qmult_1_l. exact H1.
Qed.

Lemma calculate_ratio_full (n : nat) : (_calculate_ratio n (n + n) == 1)%Q.
Proof.
  unfold _calculate_ratio. destruct (Nat.eqb (n + n) 0) eqn:E; [reflexivity|].
  apply Nat.eqb_neq in E.
  pose proof (ratio_denominator E) as Ht.
  pose proof (ratio_numerator (Z.of_nat n)) as Hn.
  replace (2 * Z.of_nat n)%Z with (Z.of_nat (n + n)) in Hn by lia.
  fold (binary64.of_int (Z.of_nat (n + n))) in Hn.
  unfold binary64.fdiv.
  transitivity (binary64.rnd 1);
    [|rewrite binary64_facts.rnd_1; reflexivity].
  apply binary64_facts.rnd_comp. rewrite Hn.
  field. intros C. rewrite C in Ht. discriminate Ht.
Qed.

Lemma ratio_range (a b : string) : (0 <= ratio a b <= 1)%Q.
Proof.
  unfold ratio. cbv zeta. apply calculate_ratio_range.
  destruct (matches_bound (list_ascii_of_string a) (list_ascii_of_string b))
    as [Ha Hb].
  apply (Nat.le_trans _ (matches (list_ascii_of_string a)
                           (list_ascii_of_string b)
                         + matches (list_ascii_of_string a)
                             (list_ascii_of_string b))); [lia|].
  now apply Nat.add_le_mono.
Qed.

Lemma ratio_self (a : string) : (ratio a a == 1)%Q.
Proof.
  unfold ratio. cbv zeta. rewrite matches_self. apply calculate_ratio_full.
Qed.

(** *** An empty sequence *)

Lemma matches_nil_r (a : list elt) : matches a [] = 0.
Proof. destruct (matches_bound a []) as [_ H]. simpl in H. lia. Qed.

Lemma matches_nil_l (b : list elt) : matches [] b = 0.
Proof. destruct (matches_bound [] b) as [H _]. simpl in H. lia. Qed.

Lemma calculate_ratio_none (t : nat) :
  t <> 0 -> (_calculate_ratio 0 t == 0)%Q.
Proof.
  intros H. unfold _calculate_ratio.
  destruct (Nat.eqb t 0) eqn:E; [apply Nat.eqb_eq in E; contradiction|].
  pose proof (ratio_numerator (Z.of_nat 0)) as Hn.
  change (binary64.rnd (inject_Z (2 * Z.of_nat 0))) with 0%Q in Hn.
  unfold binary64.fdiv.
  transitivity (binary64.rnd 0); [|reflexivity].
  apply binary64_facts.rnd_comp. rewrite Hn. unfold Qdiv. ring.
Qed.

Lemma ratio_empty_r (a : string) :
  a <> EmptyString -> (ratio a EmptyString == 0)%Q.
Proof.
  intros H. unfold ratio. cbv zeta. cbn [list_ascii_of_string].
  rewrite matches_nil_r. apply calculate_ratio_none.
  destruct a; [contradiction|]. simpl. lia.
Qed.

Lemma ratio_empty_l (b : string) :
  b <> EmptyString -> (ratio EmptyString b == 0)%Q.
Proof.
  intros H. unfold ratio. cbv zeta. cbn [list_ascii_of_string].
  rewrite matches_nil_l. apply calculate_ratio_none.
  destruct b; [contradiction|]. simpl. lia.
Qed.


End difflib_facts.

(** C7: on strings [calculate_skill_match] returns the ratio of the
    lower-cased texts, a value between 0 and 1, which is 1 whenever the two
    texts are equal after lower-casing. *)
Theorem similarity_contract (a b : string) :
  exists q,
    calculate_skill_match (PyStr a) (PyStr b) = Ok q /\
    q = difflib.ratio (lower a) (lower b) /\
    0 <= q <= 1 /\
    (lower a = lower b -> q == 1).
Proof.
  exists (similarity a b). split; [reflexivity|]. split; [reflexivity|].
  split; [apply difflib_facts.ratio_range|].
  intros H. unfold similarity. rewrite H. apply difflib_facts.ratio_self.
Qed.

(** ** The theorems at concrete inputs *)

(** C2 at the threshold: the skill "A" against a course named "B" and
    described by "a" has name similarity 0 and description similarity 1, so
    its weighted score is the float 0.3 itself, which is not above 0.3. *)
Lemma threshold_property_witness :
  let c := PyDict [("name", PyStr "B"); ("description", PyStr "a")] in
  let sk := {| skill_label := "A"; occupation_skill_level := "essential";
               experience_level := None |} in
  combined sk "b" "a" = binary64.float_03 /\
  element_texts c = Ok ("b", "a") /\
  combined sk "b" "a" <= 3 # 10 /\
  (forall st, skill_step "b" "a" st sk = Ok st) /\
  (forall ms1 ms2,
      calculate_course_match_score (wrap c) (ms1 ++ sk :: ms2) =
      calculate_course_match_score (wrap c) (ms1 ++ ms2)) /\
  (forall ms t m,
      calculate_course_match_score (wrap c) ms = Ok (Scored t m) ->
      forall e, In e m -> skill e <> lower (skill_label sk)).
Proof.
  intros c sk.
  assert (element_texts c = Ok ("b", "a")) as H1 by reflexivity.
  assert (combined sk "b" "a" <= 3 # 10) as H2 by (vm_compute; discriminate).
  split; [vm_compute; reflexivity|]. split; [exact H1|]. split; [exact H2|].
  exact (@threshold_property c "b" "a" sk H1 H2).
Defined.

(** C3 at the label of the example and its course. *)
Lemma weighting_property_witness :
  let cn := "data visualization with python" in
  let cd := "intro to charts" in
  let ess := {| skill_label := "Data Visualization";
                occupation_skill_level := "essential";
                experience_level := None |} in
  let opt := {| skill_label := "Data Visualization";
                occupation_skill_level := "optional";
                experience_level := None |} in
  3 # 10 < combined ess cn cd /\
  exists s te me to_ mo,
    s = combined ess cn cd /\ s = combined opt cn cd /\
    skill_step cn cd (0, []) ess = Ok (te, me) /\
    skill_step cn cd (0, []) opt = Ok (to_, mo) /\
    te = binary64.fadd 0 (binary64.fmul s 2) /\
    to_ = binary64.fadd 0 (binary64.fmul s 1) /\
    binary64.fmul s 2 == s * 2 /\ binary64.fmul s 1 == s * 1 /\
    binary64.fmul s 2 == 2 * binary64.fmul s 1 /\
    (0 = 0 -> te == s * 2 /\ to_ == s * 1 /\ te - 0 == 2 * (to_ - 0)).
Proof.
  intros cn cd ess opt.
  assert (3 # 10 < combined ess cn cd) as H by (vm_compute; reflexivity).
  split; [exact H|].
  exact (@weighting_property cn cd "Data Visualization" None 0 [] H).
Defined.

(** C10 at the example course and skill. *)
Lemma trace_consistency_witness :
  exists t m,
    calculate_course_match_score (wrap example_course) [example_skill]
    = Ok (Scored t m) /\
    t == sum_trace m /\
    Forall (fun e => 3 # 10 < score e) m /\
    (0 < t <-> m <> []).
Proof.
  eexists. eexists.
  split.
  - vm_compute. reflexivity.
  - apply (@trace_consistency (wrap example_course) [example_skill]).
    vm_compute. reflexivity.
Defined.

(** C1 at two fetched courses whose float totals differ in the last bit,
    [top_k = 1]: the course fetched second has the greater total and is the
    one returned. *)
Lemma ranking_property_witness :
  exists l,
    (0 <= 1)%Z /\
    fst (get_course_recommendations_cached (Ok [tie_skill]) tie_net 1)
    = Ok l /\
    map course l = [tie_course_2] /\
    sorted_desc l /\
    (Z.of_nat (length l) <= 1)%Z /\
    Forall (fun r => 0 < rec_score r) l /\
    exists ms all_courses,
      Ok [tie_skill] = Ok ms /\
      fst (fetch_loop tie_net ms ms [] []) = Ok all_courses /\
      forall q, exists rest,
        with_score q all_courses = with_score q l ++ rest.
Proof.
  eexists. split; [lia|]. split; [vm_compute; reflexivity|].
  split; [reflexivity|].
  apply (@ranking_property (Ok [tie_skill]) tie_net 1); [lia|].
  vm_compute. reflexivity.
Defined.

(** C5 at a course that the only missing skill does not match, with a
    weighted score that is the float 0.3 itself. *)
Lemma no_match_excluded_witness :
  let c := PyDict [("name", PyStr "b"); ("description", PyStr "a")] in
  let ms := [ {| skill_label := "a"; occupation_skill_level := "optional";
                 experience_level := None |} ] in
  (forall sk, In sk ms -> combined sk "b" "a" = binary64.float_03) /\
  element_texts c = Ok ("b", "a") /\
  (forall sk, In sk ms -> combined sk "b" "a" <= 3 # 10) /\
  calculate_course_match_score (wrap c) ms = Ok (Scored 0 []) /\
  (forall sk acc, course_step ms sk acc c = Ok acc).
Proof.
  intros c ms.
  assert (element_texts c = Ok ("b", "a")) as H1 by reflexivity.
  assert (forall sk, In sk ms -> combined sk "b" "a" <= 3 # 10) as H2.
  { intros sk [<-|[]]. vm_compute. discriminate. }
  split; [intros sk [<-|[]]; vm_compute; reflexivity|].
  split; [exact H1|]. split; [exact H2|].
  exact (@no_match_excluded c "b" "a" ms H1 H2).
Defined.

(** C7 at two texts that differ in case only, and at the example. *)
Lemma similarity_contract_witness :
  lower "Python" = lower "pYTHON" /\
  (exists q,
      calculate_skill_match (PyStr "Python") (PyStr "pYTHON") = Ok q /\
      q = difflib.ratio (lower "Python") (lower "pYTHON") /\
      0 <= q <= 1 /\
      (lower "Python" = lower "pYTHON" -> q == 1)).
Proof.
  split; [reflexivity|]. exact (@similarity_contract "Python" "pYTHON").
Defined.

(** * Further properties *)

(** ** Texts and case *)

Lemma lower_char_idempotent (c : ascii) :
  lower_char (lower_char c) = lower_char c.
Proof. destruct c as [[] [] [] [] [] [] [] []]; reflexivity. Qed.

Lemma lower_idempotent (s : string) : lower (lower s) = lower s.
Proof.
  induction s as [|c s IH]; [reflexivity|].
  simpl. now rewrite lower_char_idempotent, IH.
Qed.

Lemma lower_empty (s : string) : lower s = "" -> s = "".
Proof. destruct s; [reflexivity|discriminate]. Qed.

(** X9: the similarity does not see case: lower-casing either argument
    first changes nothing, and two pairs of texts that agree after
    lower-casing get the same result. *)
Theorem skill_match_case_insensitive (a b : string) :
  calculate_skill_match (PyStr (lower a)) (PyStr (lower b)) =
  calculate_skill_match (PyStr a) (PyStr b)
  /\ forall a' b',
      lower a = lower a' -> lower b = lower b' ->
      calculate_skill_match (PyStr a) (PyStr b) =
      calculate_skill_match (PyStr a') (PyStr b').
Proof.
  split.
  - rewrite !calculate_skill_match_str. unfold similarity.
    now rewrite !lower_idempotent.
  - intros a' b' Ha Hb. rewrite !calculate_skill_match_str. unfold similarity.
    now rewrite Ha, Hb.
Qed.

Lemma similarity_empty_r (a : string) : a <> "" -> similarity a "" == 0.
Proof.
  intros H. unfold similarity. apply difflib_facts.ratio_empty_r.
  intros E. apply H, lower_empty, E.
Qed.

Lemma similarity_empty_l (b : string) : b <> "" -> similarity "" b == 0.
Proof.
  intros H. unfold similarity. apply difflib_facts.ratio_empty_l.
  intros E. apply H, lower_empty, E.
Qed.

Lemma similarity_range (a b : string) : 0 <= similarity a b <= 1.
Proof. apply difflib_facts.ratio_range. Qed.

(** X10: against the empty text every non-empty text has similarity 0, in
    either position, while two empty texts have similarity 1. *)
Theorem skill_match_empty_text (a : string) :
  a <> "" ->
  (exists q, calculate_skill_match (PyStr a) (PyStr "") = Ok q /\ q == 0)
  /\ (exists q, calculate_skill_match (PyStr "") (PyStr a) = Ok q /\ q == 0)
  /\ (exists q, calculate_skill_match (PyStr "") (PyStr "") = Ok q /\ q == 1).
Proof.
  intros H. split; [|split].
  - exists (similarity a ""). split; [reflexivity|].
    now apply similarity_empty_r.
  - exists (similarity "" a). split; [reflexivity|].
    now apply similarity_empty_l.
  - exists (similarity "" ""). split; reflexivity.
Qed.

Lemma skill_match_empty_text_witness :
  "welding" <> "" /\
  (exists q, calculate_skill_match (PyStr "welding") (PyStr "") = Ok q
             /\ q == 0)
  /\ (exists q, calculate_skill_match (PyStr "") (PyStr "welding") = Ok q
                /\ q == 0)
  /\ (exists q, calculate_skill_match (PyStr "") (PyStr "") = Ok q /\ q == 1).
Proof.
  assert ("welding" <> "") as H by discriminate.
  split; [exact H|]. exact (@skill_match_empty_text "welding" H).
Defined.

(** ** Bounds and shape of a score *)

Lemma level_weight_le (lvl : string) : level_weight lvl <= 2.
Proof. unfold level_weight. destruct (String.eqb lvl "essential"); lra. Qed.

Lemma combined_range (sk : missing_skill) (cn cd : string) :
  0 <= combined sk cn cd <= 1.
Proof.
  unfold combined, skill_score_of.
  pose proof (binary64_facts.fmul_le_r
                (similarity_range (lower (skill_label sk)) cn)
                (Qlt_le_weak _ _ binary64_facts.float_07_pos)
                binary64_facts.float_07_float) as [A0 A1].
  pose proof (binary64_facts.fmul_le_r
                (similarity_range (lower (skill_label sk)) cd)
                (Qlt_le_weak _ _ binary64_facts.float_03_pos)
                binary64_facts.float_03_float) as [B0 B1].
  split.
  - apply binary64_facts.rnd_nonneg. lra.
  - rewrite <- binary64_facts.float_weights_sum.
    apply binary64_facts.fadd_mono; assumption.
Qed.

Lemma skill_step_bound (cn cd : string) (st st' : Q * list matched_skill)
    (sk : missing_skill) :
  bound_inv st -> skill_step cn cd st sk = Ok st' -> bound_inv st'.
Proof.
  destruct st as [t m]. rewrite skill_step_eq. intros [Hm [Ht Hc]] H.
  apply Ok_inj in H. subst st'. cbn [fst snd] in Hm, Ht, Hc.
  destruct (Qlt_le_dec _ _) as [Hlt|Hle]; [|repeat split; assumption].
  assert (binary64.fmul (combined sk cn cd)
            (level_weight (occupation_skill_level sk)) <= 2) as Hx.
  { rewrite <- binary64_facts.rnd_2. apply binary64_facts.rnd_mono.
    pose proof (combined_range sk cn cd).
    pose proof (level_weight_le (occupation_skill_level sk)).
    pose proof (level_weight_pos (occupation_skill_level sk)). nra. }
  destruct (@binary64_facts.total_bound t _ (Z.of_nat (length m))
              (Nat2Z.is_nonneg _) Ht Hc Hx) as [B1 B2].
  split; [|split]; cbn [fst snd].
  - apply Forall_app. split; [exact Hm|].
    constructor; [|constructor]. simpl. apply combined_range.
  - rewrite length_app, Nat2Z.inj_add. exact B1.
  - exact B2.
Qed.

Lemma score_bound (c : pyval) (ms : list missing_skill) (t : Q)
    (m : list matched_skill) :
  calculate_course_match_score c ms = Ok (Scored t m) -> bound_inv (t, m).
Proof.
  unfold calculate_course_match_score. intros H.
  destruct (if negb (truthy c) then Ok true
            else has <- py_in "elements" c ;; Ok (negb has)) as [[|]|];
    simpl in H; try discriminate.
  destruct (py_getitem c "elements") as [v|]; simpl in H; [|discriminate].
  destruct (py_iter v) as [els|]; simpl in H; [|discriminate].
  destruct (for_each (element_step ms) els (0, [])) as [st|] eqn:E;
    simpl in H; [|discriminate].
  injection H as <- <-.
  assert (bound_inv st) as Hst.
  { eapply for_each_inv; [| |exact E].
    - intros s x s' Hs. rewrite element_step_eq.
      destruct (element_texts x) as [[cn cd]|]; simpl; [|discriminate].
      intros Hx. eapply for_each_inv; [|exact Hs|exact Hx].
      intros s1 x1 s1'. apply skill_step_bound.
    - split; [apply Forall_nil|]. split; cbn [fst snd]; discriminate. }
  destruct st; exact Hst.
Qed.

(** X2: whenever the scoring function returns its dict, every score of the
    trace lies above 0.3 and at most at 1, and the total score lies between
    0 and twice the number of trace entries. *)
Theorem score_bounds (c : pyval) (ms : list missing_skill) (t : Q)
    (m : list matched_skill) :
  calculate_course_match_score c ms = Ok (Scored t m) ->
  Forall (fun e => 3 # 10 < score e /\ score e <= 1) m
  /\ 0 <= t <= 2 * inject_Z (Z.of_nat (length m)).
Proof.
  intros H. destruct (score_inv _ _ H) as [Ht Hm].
  destruct (score_bound _ _ H) as [Hb [Htb _]]. cbn [fst snd] in *.
  split.
  - rewrite Forall_forall in *. intros e He. split; auto.
  - split; [|exact Htb]. rewrite Ht. apply sum_trace_nonneg, Hm.
Qed.

Lemma score_bounds_witness :
  exists t m,
    calculate_course_match_score (wrap example_course) [example_skill]
    = Ok (Scored t m) /\
    Forall (fun e => 3 # 10 < score e /\ score e <= 1) m
    /\ 0 <= t <= 2 * inject_Z (Z.of_nat (length m)).
Proof.
  eexists. eexists. split.
  - vm_compute. reflexivity.
  - apply (@score_bounds (wrap example_course) [example_skill]).
    vm_compute. reflexivity.
Defined.

Lemma skills_loop_trace (cn cd : string) (ms : list missing_skill) (t : Q)
    (m : list matched_skill) :
  exists t',
    for_each (skill_step cn cd) ms (t, m) =
    Ok (t', m ++ map (fun sk => entry_of sk cn cd) (filter (matched cn cd) ms)).
Proof.
  revert t m. induction ms as [|sk ms IH]; intros t m; cbn [for_each].
  - exists t. simpl. now rewrite app_nil_r.
  - rewrite skill_step_eq. cbn [bind filter]. unfold matched at 1.
    destruct (Qlt_le_dec _ _) as [Hlt|Hle].
    + destruct (IH (binary64.fadd t
                      (binary64.fmul (combined sk cn cd)
                         (level_weight (occupation_skill_level sk))))
                  (m ++ [entry_of sk cn cd])) as [t' ->].
      exists t'. cbn [map]. now rewrite <- app_assoc.
    + apply IH.
Qed.

(** X3: the trace of a fetched course is made of the missing skills that
    clear the threshold against its texts, one entry each, in the order of
    the list of missing skills. *)
Theorem trace_shape (c : pyval) (cn cd : string) (ms : list missing_skill) :
  element_texts c = Ok (cn, cd) ->
  exists t,
    calculate_course_match_score (wrap c) ms =
    Ok (Scored t (map (fun sk => entry_of sk cn cd)
                    (filter (matched cn cd) ms))).
Proof.
  intros Htexts. rewrite score_wrap, element_step_eq, Htexts.
  cbn [bind fst snd].
  destruct (skills_loop_trace cn cd ms 0 []) as [t ->].
  exists t. reflexivity.
Qed.

Lemma trace_shape_witness :
  let other := {| skill_label := "Q"; occupation_skill_level := "optional";
                  experience_level := None |} in
  let ms := [other; sql_skill] in
  element_texts sql_course = Ok ("sql for data scientists", "learn sql!") /\
  filter (matched "sql for data scientists" "learn sql!") ms = [sql_skill] /\
  exists t,
    calculate_course_match_score (wrap sql_course) ms =
    Ok (Scored t
          (map (fun sk => entry_of sk "sql for data scientists" "learn sql!")
             (filter (matched "sql for data scientists" "learn sql!") ms))).
Proof.
  intros other ms.
  assert (element_texts sql_course
          = Ok ("sql for data scientists", "learn sql!")) as H by reflexivity.
  split; [exact H|]. split; [vm_compute; reflexivity|].
  exact (@trace_shape sql_course _ _ ms H).
Defined.

(** ** The aggregator as fetch, score, sort, cut *)

Lemma course_step_scored (ms : list missing_skill) (sk : missing_skill)
    (acc acc' : list recommendation) (c : pyval) :
  course_step ms sk acc c = Ok acc' -> acc' = acc ++ scored ms sk c.
Proof.
  unfold course_step, scored. fold (wrap c).
  destruct (calculate_course_match_score (wrap c) ms) as [[|t m]|]; simpl;
    try discriminate.
  destruct (Qlt_le_dec 0 t); intros H; injection H as <-;
    [reflexivity|now rewrite app_nil_r].
Qed.

Lemma courses_loop_scored (ms : list missing_skill) (sk : missing_skill)
    (items : list pyval) (acc acc' : list recommendation) :
  for_each (course_step ms sk) items acc = Ok acc' ->
  acc' = acc ++ flat_map (scored ms sk) items.
Proof.
  revert acc. induction items as [|c items IH]; intros acc; simpl.
  - intros H. injection H as <-. now rewrite app_nil_r.
  - destruct (course_step ms sk acc c) as [acc1|] eqn:E; simpl;
      [|discriminate].
    intros H. apply IH in H. apply course_step_scored in E. subst.
    now rewrite <- app_assoc.
Qed.

Lemma courses_step_fetched (net : endpoint) (ms : list missing_skill)
    (sk : missing_skill) (acc acc' : list recommendation) :
  courses_step ms sk (get_coursera_courses net (skill_label sk)) acc = Ok acc' ->
  acc' = acc ++ flat_map (scored ms sk) (fetched net sk).
Proof.
  unfold courses_step, fetched.
  destruct (truthy (get_coursera_courses net (skill_label sk))).
  - destruct (py_in "elements" (get_coursera_courses net (skill_label sk)))
      as [[|]|]; simpl; try discriminate.
    + destruct (py_getitem (get_coursera_courses net (skill_label sk))
                  "elements") as [v|]; simpl; [|discriminate].
      destruct (py_iter v) as [items|]; simpl; [|discriminate].
      apply courses_loop_scored.
    + intros H. injection H as <-. now rewrite app_nil_r.
  - simpl. intros H. injection H as <-. now rewrite app_nil_r.
Qed.

Lemma fetch_loop_pipeline (net : endpoint) (ms todo : list missing_skill)
    (acc all_courses : list recommendation) (calls : list string) :
  fst (fetch_loop net ms todo acc calls) = Ok all_courses ->
  all_courses =
  acc ++ flat_map (fun sk => flat_map (scored ms sk) (fetched net sk)) todo.
Proof.
  revert acc calls. induction todo as [|sk todo IH]; intros acc calls;
    cbn [fetch_loop flat_map].
  - intros H. injection H as <-. now rewrite app_nil_r.
  - destruct (courses_step ms sk _ acc) as [acc1|] eqn:E; [|discriminate].
    intros H. apply IH in H. apply courses_step_fetched in E. subst.
    now rewrite <- app_assoc.
Qed.

Lemma slice_to_nil {A : Type} (k : Z) : slice_to (@nil A) k = [].
Proof.
  unfold slice_to. simpl. destruct (k <? 0)%Z; now rewrite firstn_nil.
Qed.

Lemma aggregator_pipeline (net : endpoint) (ms : list missing_skill)
    (top_k : Z) (l : list recommendation) :
  fst (get_course_recommendations_cached (Ok ms) net top_k) = Ok l ->
  l = slice_to (sort_desc (pipeline net ms)) top_k.
Proof.
  unfold get_course_recommendations_cached, pipeline.
  destruct ms as [|sk ms].
  - simpl. intros H. injection H as <-. now rewrite slice_to_nil.
  - destruct (fetch_loop net (sk :: ms) (sk :: ms) [] []) as [[all|e] calls]
      eqn:E; simpl; [|discriminate].
    intros H. injection H as <-.
    assert (fst (fetch_loop net (sk :: ms) (sk :: ms) [] []) = Ok all) as Hall
      by now rewrite E.
    apply fetch_loop_pipeline in Hall. simpl in Hall. now subst.
Qed.

(** X4: whenever the aggregator returns, its result is the cut at [top_k] of
    the stable descending sort of the list obtained by taking, for each
    missing skill in turn, the courses of its payload in order, scoring each
    against the whole list of missing skills and keeping those with a total
    score above 0. *)
Theorem two_phase_pipeline (net : endpoint) (ms : list missing_skill)
    (top_k : Z) (l : list recommendation) :
  fst (get_course_recommendations_cached (Ok ms) net top_k) = Ok l ->
  l = slice_to
        (sort_desc
           (flat_map
              (fun sk => flat_map (scored ms sk) (fetched net sk)) ms))
        top_k.
Proof. apply aggregator_pipeline. Qed.

Lemma two_phase_pipeline_witness :
  exists l,
    fst (get_course_recommendations_cached (Ok [tie_skill]) tie_net 3)
    = Ok l /\
    map course l = [tie_course_2; tie_course_1] /\
    l = slice_to
          (sort_desc
             (flat_map
                (fun sk => flat_map (scored [tie_skill] sk)
                             (fetched tie_net sk)) [tie_skill]))
          3.
Proof.
  eexists. split; [vm_compute; reflexivity|]. split; [reflexivity|].
  apply (@two_phase_pipeline tie_net [tie_skill] 3).
  vm_compute. reflexivity.
Defined.

Lemma in_slice_to {A : Type} (l : list A) (k : Z) (x : A) :
  In x (slice_to l k) -> In x l.
Proof.
  destruct (slice_to_firstn l k) as [n [-> _]]. intros H.
  rewrite <- (firstn_skipn n l). apply in_or_app. now left.
Qed.

Lemma in_pipeline (net : endpoint) (ms : list missing_skill)
    (r : recommendation) :
  In r (pipeline net ms) ->
  exists sk c,
    In sk ms /\ In c (fetched net sk) /\ In r (scored ms sk c).
Proof.
  unfold pipeline. intros H. apply in_flat_map in H.
  destruct H as [sk [Hsk H]]. apply in_flat_map in H.
  destruct H as [c [Hc H]]. eauto.
Qed.

Lemma in_result (net : endpoint) (ms : list missing_skill) (top_k : Z)
    (l : list recommendation) (r : recommendation) :
  fst (get_course_recommendations_cached (Ok ms) net top_k) = Ok l ->
  In r l -> In r (pipeline net ms).
Proof.
  intros H Hr. apply aggregator_pipeline in H. subst l.
  apply in_slice_to in Hr.
  eapply Permutation_in; [apply sort_desc_perm|exact Hr].
Qed.

(** X5: every entry of the result was fetched: its course is an element of
    the payload obtained for one of the missing skills, its level and
    experience are those of that skill, and its score is the one the scoring
    function gives that course against the whole list of missing skills,
    whichever skill the course was fetched for. *)
Theorem result_provenance (net : endpoint) (ms : list missing_skill)
    (top_k : Z) (l : list recommendation) (r : recommendation) :
  fst (get_course_recommendations_cached (Ok ms) net top_k) = Ok l ->
  In r l ->
  exists sk,
    In sk ms /\ In (course r) (fetched net sk) /\
    target_skill_level r = occupation_skill_level sk /\
    suitable_for_experience r = match experience_level sk with
                                | Some e => e
                                | None => "Beginner"
                                end /\
    calculate_course_match_score (wrap (course r)) ms =
    Ok (Scored (fst (match_score r)) (snd (match_score r))).
Proof.
  intros H Hr. pose proof (@in_result net ms top_k l r H Hr) as Hp.
  destruct (@in_pipeline net ms r Hp) as [sk [c [Hsk [Hc Hs]]]].
  exists sk. unfold scored in Hs.
  destruct (calculate_course_match_score (wrap c) ms) as [[|t m]|] eqn:E;
    try contradiction.
  destruct (Qlt_le_dec 0 t); [|contradiction].
  destruct Hs as [<-|[]]. simpl. auto.
Qed.

Lemma result_provenance_witness :
  exists l r,
    fst (get_course_recommendations_cached (Ok [example_skill]) example_net 3)
    = Ok l /\ In r l /\
    exists sk,
      In sk [example_skill] /\ In (course r) (fetched example_net sk) /\
      target_skill_level r = occupation_skill_level sk /\
      suitable_for_experience r = match experience_level sk with
                                  | Some e => e
                                  | None => "Beginner"
                                  end /\
      calculate_course_match_score (wrap (course r)) [example_skill] =
      Ok (Scored (fst (match_score r)) (snd (match_score r))).
Proof.
  eexists. eexists. split; [vm_compute; reflexivity|].
  split; [left; reflexivity|].
  eapply (@result_provenance example_net [example_skill] 3);
    [vm_compute; reflexivity|left; reflexivity].
Defined.

(** ** Courses without a name *)

Lemma skills_loop_none (cn cd : string) (ms : list missing_skill) :
  (forall sk, In sk ms -> combined sk cn cd <= 3 # 10) ->
  forall st, for_each (skill_step cn cd) ms st = Ok st.
Proof.
  induction ms as [|sk ms IH]; intros Hall [t m]; cbn [for_each];
    [reflexivity|].
  rewrite skill_step_eq.
  destruct (Qlt_le_dec _ _) as [Hlt|_].
  - specialize (Hall sk (or_introl eq_refl)).
    apply above_threshold in Hlt. lra.
  - cbn [bind]. apply IH. intros sk' Hin. apply Hall. now right.
Qed.

Lemma nameless_combined (sk : missing_skill) (cd : string) :
  skill_label sk <> "" -> combined sk "" cd <= 3 # 10.
Proof.
  intros H. unfold combined, skill_score_of.
  assert (similarity (lower (skill_label sk)) "" == 0) as H0.
  { apply similarity_empty_r. intros E. apply H, lower_empty, E. }
  assert (binary64.fmul (similarity (lower (skill_label sk)) "")
            binary64.float_07 == 0) as Hn.
  { unfold binary64.fmul. transitivity (binary64.rnd 0); [|reflexivity].
    apply binary64_facts.rnd_comp. rewrite H0. ring. }
  pose proof (binary64_facts.fmul_le_r
                (similarity_range (lower (skill_label sk)) cd)
                (Qlt_le_weak _ _ binary64_facts.float_03_pos)
                binary64_facts.float_03_float) as [_ Hd].
  eapply Qle_trans; [|exact binary64_facts.float_03_below].
  rewrite <- binary64_facts.float_03_float at 2.
  apply binary64_facts.rnd_mono. rewrite Hn. lra.
Qed.

Lemma element_texts_named (c : pyval) (cn cd : string) :
  element_texts c = Ok (cn, cd) -> named c = true \/ cn = "".
Proof.
  destruct c as [| | | | | |d]; try discriminate.
  unfold element_texts, named. simpl.
  destruct (dict_get d "name") as [[| | | |n| |]|]; simpl; try discriminate.
  - intros _. now left.
  - destruct (dict_get d "description") as [[| | | |s| |]|]; simpl;
      try discriminate; intros H; injection H as <- _; now right.
Qed.

Lemma scored_named (ms : list missing_skill) (sk : missing_skill) (c : pyval)
    (r : recommendation) :
  (forall sk', In sk' ms -> skill_label sk' <> "") ->
  In r (scored ms sk c) -> named (course r) = true.
Proof.
  intros Hlabels. unfold scored.
  destruct (calculate_course_match_score (wrap c) ms) as [[|t m]|] eqn:E;
    try contradiction.
  destruct (Qlt_le_dec 0 t) as [Hlt|]; [|contradiction].
  intros [<-|[]]. simpl.
  rewrite score_wrap, element_step_eq in E.
  destruct (element_texts c) as [[cn cd]|] eqn:Et; simpl in E;
    [|discriminate].
  destruct (@element_texts_named c cn cd Et) as [Hn| ->]; [exact Hn|].
  rewrite skills_loop_none in E.
  - simpl in E. injection E as <- _. lra.
  - intros sk' Hin. apply nameless_combined, Hlabels, Hin.
Qed.

(** X1: when no missing skill has an empty label, every entry the
    aggregator returns carries a course dict with a string under ['name'],
    so the [c['name']] of the course tab finds it: a course without a name
    scores at most 0.3 against every skill and is never listed. *)
Theorem listed_courses_have_names (net : endpoint) (ms : list missing_skill)
    (top_k : Z) (l : list recommendation) :
  (forall sk, In sk ms -> skill_label sk <> "") ->
  fst (get_course_recommendations_cached (Ok ms) net top_k) = Ok l ->
  Forall (fun r => exists n, display_name r = Ok (PyStr n)) l.
Proof.
  intros Hlabels H. apply Forall_forall. intros r Hr.
  pose proof (@in_result net ms top_k l r H Hr) as Hp.
  destruct (@in_pipeline net ms r Hp) as [sk [c [_ [_ Hs]]]].
  pose proof (@scored_named ms sk c r Hlabels Hs) as Hn.
  unfold display_name, named in *.
  destruct (course r) as [| | | | | |d]; try discriminate. simpl.
  destruct (dict_get d "name") as [[| | | |n| |]|]; try discriminate.
  eauto.
Qed.

Lemma listed_courses_have_names_witness :
  (forall sk, In sk [example_skill] -> skill_label sk <> "") /\
  exists l,
    fst (get_course_recommendations_cached (Ok [example_skill]) example_net 3)
    = Ok l /\
    Forall (fun r => exists n, display_name r = Ok (PyStr n)) l.
Proof.
  assert (forall sk, In sk [example_skill] -> skill_label sk <> "") as H.
  { intros sk [<-|[]]. discriminate. }
  split; [exact H|]. eexists. split; [vm_compute; reflexivity|].
  eapply (@listed_courses_have_names example_net [example_skill] 3);
    [exact H|vm_compute; reflexivity].
Defined.

(** ** No deduplication *)

Lemma fetched_step (net : endpoint) (ms : list missing_skill)
    (sk : missing_skill) (acc : list recommendation) (c : pyval)
    (items : list pyval) :
  fetched net sk = c :: items ->
  courses_step ms sk (get_coursera_courses net (skill_label sk)) acc =
  for_each (course_step ms sk) (c :: items) acc.
Proof.
  unfold fetched, courses_step.
  destruct (truthy (get_coursera_courses net (skill_label sk)));
    [|discriminate].
  destruct (py_in "elements" (get_coursera_courses net (skill_label sk)))
    as [[|]|]; try discriminate.
  destruct (py_getitem (get_coursera_courses net (skill_label sk)) "elements")
    as [v|]; [|discriminate].
  cbn [bind]. destruct (py_iter v) as [l|]; [|discriminate].
  intros ->. reflexivity.
Qed.

Lemma fetch_loop_same_course (net : endpoint) (ms todo : list missing_skill)
    (c : pyval) (t : Q) (m : list matched_skill)
    (acc : list recommendation) (calls : list string) :
  (forall sk, In sk todo -> fetched net sk = [c]) ->
  calculate_course_match_score (wrap c) ms = Ok (Scored t m) ->
  0 < t ->
  exists all_courses,
    fst (fetch_loop net ms todo acc calls) = Ok all_courses /\
    length all_courses = (length acc + length todo)%nat /\
    (Forall (fun r => course r = c) acc ->
     Forall (fun r => course r = c) all_courses).
Proof.
  intros Hf Hs Ht. revert acc calls.
  induction todo as [|sk todo IH]; intros acc calls; cbn [fetch_loop].
  - exists acc. simpl. split; [reflexivity|]. split; [lia|auto].
  - rewrite (@fetched_step net ms sk acc c []) by (apply Hf; now left).
    cbn [for_each]. unfold course_step at 1. fold (wrap c). rewrite Hs.
    cbn [bind]. destruct (Qlt_le_dec 0 t) as [_|Hle]; [|lra].
    destruct (IH (fun sk' Hin => Hf sk' (or_intror Hin))
                (acc ++ [ {| course := c;
                             match_score := (t, m);
                             target_skill_level := occupation_skill_level sk;
                             suitable_for_experience :=
                               match experience_level sk with
                               | Some e => e
                               | None => "Beginner"
                               end |} ])
                (calls ++ [skill_label sk])) as [all [H1 [H2 H3]]].
    exists all. split; [exact H1|]. split.
    + rewrite H2, length_app. simpl. lia.
    + intros Hacc. apply H3. apply Forall_app. split; [exact Hacc|].
      constructor; [reflexivity|constructor].
Qed.

(** X6: courses are not deduplicated: when the fetch for every missing
    skill brings the same single course and that course has a total score
    above 0, [all_courses] lists it once per missing skill. *)
Theorem no_deduplication (net : endpoint) (ms : list missing_skill)
    (c : pyval) (t : Q) (m : list matched_skill) :
  (forall sk, In sk ms -> fetched net sk = [c]) ->
  calculate_course_match_score (wrap c) ms = Ok (Scored t m) ->
  0 < t ->
  exists all_courses,
    fst (fetch_loop net ms ms [] []) = Ok all_courses /\
    length all_courses = length ms /\
    Forall (fun r => course r = c) all_courses.
Proof.
  intros Hf Hs Ht.
  destruct (@fetch_loop_same_course net ms ms c t m [] [] Hf Hs Ht)
    as [all [H1 [H2 H3]]].
  exists all. split; [exact H1|]. split; [exact H2|]. apply H3. constructor.
Qed.

Lemma no_deduplication_witness :
  let net : endpoint :=
    fun _ => Ok (PyDict [("elements", PyList [example_course])]) in
  let ms := [example_skill; example_skill; example_skill] in
  exists all_courses,
    fst (fetch_loop net ms ms [] []) = Ok all_courses /\
    length all_courses = length ms /\
    Forall (fun r => course r = example_course) all_courses.
Proof.
  intros net ms.
  eapply (@no_deduplication net ms example_course).
  - intros sk _. reflexivity.
  - vm_compute. reflexivity.
  - vm_compute. reflexivity.
Defined.

(** ** The cut at [top_k] *)

Lemma slice_to_nonneg {A : Type} (l : list A) (k : Z) :
  (0 <= k)%Z -> slice_to l k = firstn (Z.to_nat k) l.
Proof.
  intros H. unfold slice_to.
  assert ((k <? 0)%Z = false) as -> by (apply Z.ltb_ge; lia). reflexivity.
Qed.

(** X7: for the same missing skills and the same answers of the content
    source, the result for a smaller non-negative [top_k] is a prefix of the
    result for a greater one. *)
Theorem top_k_prefix (net : endpoint) (ms : list missing_skill) (k k' : Z)
    (l l' : list recommendation) :
  (0 <= k <= k')%Z ->
  fst (get_course_recommendations_cached (Ok ms) net k) = Ok l ->
  fst (get_course_recommendations_cached (Ok ms) net k') = Ok l' ->
  exists rest, l' = l ++ rest.
Proof.
  intros Hk H H'. apply aggregator_pipeline in H, H'.
  rewrite slice_to_nonneg in H, H' by lia.
  exists (skipn (Z.to_nat k) l').
  assert (l = firstn (Z.to_nat k) l') as ->.
  { subst l l'. rewrite firstn_firstn.
    replace (Nat.min (Z.to_nat k) (Z.to_nat k')) with (Z.to_nat k) by lia.
    reflexivity. }
  now rewrite firstn_skipn.
Qed.

Lemma top_k_prefix_witness :
  (0 <= 1 <= 3)%Z /\
  exists l l',
    fst (get_course_recommendations_cached (Ok [example_skill]) example_net 1)
    = Ok l /\
    fst (get_course_recommendations_cached (Ok [example_skill]) example_net 3)
    = Ok l' /\
    exists rest, l' = l ++ rest.
Proof.
  assert (0 <= 1 <= 3)%Z as Hk by lia.
  split; [exact Hk|]. eexists. eexists.
  split; [vm_compute; reflexivity|]. split; [vm_compute; reflexivity|].
  eapply (@top_k_prefix example_net [example_skill] 1 3);
    [exact Hk|vm_compute; reflexivity|vm_compute; reflexivity].
Defined.

(** X8: with a [top_k] that is at least the number of scored courses,
    nothing is cut: the result is the whole sorted list, a rearrangement of
    the scored courses of all fetches. *)
Theorem top_k_complete (net : endpoint) (ms : list missing_skill) (top_k : Z)
    (l : list recommendation) :
  (Z.of_nat (length (pipeline net ms)) <= top_k)%Z ->
  fst (get_course_recommendations_cached (Ok ms) net top_k) = Ok l ->
  l = sort_desc (pipeline net ms) /\ Permutation l (pipeline net ms).
Proof.
  intros Hk H. apply aggregator_pipeline in H.
  rewrite slice_to_nonneg in H by lia.
  assert (length (sort_desc (pipeline net ms)) = length (pipeline net ms))
    as Hlen by (apply Permutation_length, sort_desc_perm).
  rewrite firstn_all2 in H by lia.
  subst l. split; [reflexivity|apply sort_desc_perm].
Qed.

Lemma top_k_complete_witness :
  (Z.of_nat (length (pipeline tie_net [tie_skill])) <= 3)%Z /\
  map course (pipeline tie_net [tie_skill]) = [tie_course_1; tie_course_2] /\
  exists l,
    fst (get_course_recommendations_cached (Ok [tie_skill]) tie_net 3)
    = Ok l /\
    map course l = [tie_course_2; tie_course_1] /\
    l = sort_desc (pipeline tie_net [tie_skill]) /\
    Permutation l (pipeline tie_net [tie_skill]).
Proof.
  assert (Z.of_nat (length (pipeline tie_net [tie_skill])) <= 3)%Z
    as Hk by (vm_compute; discriminate).
  split; [exact Hk|]. split; [vm_compute; reflexivity|].
  eexists. split; [vm_compute; reflexivity|]. split; [reflexivity|].
  eapply (@top_k_complete tie_net [tie_skill] 3);
    [exact Hk|vm_compute; reflexivity].
Defined.

(** ** The list of skills *)

Lemma ltb_leb (s1 s2 : string) : String.ltb s1 s2 = true -> String.leb s1 s2 = true.
Proof.
  unfold String.ltb, String.leb. destruct (String.compare s1 s2);
    [discriminate|reflexivity|discriminate].
Qed.

Lemma not_ltb_leb (s1 s2 : string) :
  String.ltb s1 s2 = false -> String.leb s2 s1 = true.
Proof.
  unfold String.ltb, String.leb. rewrite (String.compare_antisym s2 s1).
  destruct (String.compare s1 s2); simpl; [reflexivity|discriminate|reflexivity].
Qed.

Lemma insert_by_label_perm (x : string * string) (l : list (string * string)) :
  Permutation (insert_by_label x l) (x :: l).
Proof.
  induction l as [|y l IH]; simpl; [reflexivity|].
  destruct (String.ltb (snd y) (snd x)); [|reflexivity].
  rewrite IH. apply perm_swap.
Qed.

Lemma sorted_by_label_perm (l : list (string * string)) :
  Permutation (sorted_by_label l) l.
Proof.
  induction l as [|x l IH]; simpl; [reflexivity|].
  rewrite insert_by_label_perm. now constructor.
Qed.

Lemma insert_by_label_sorted (x : string * string)
    (l : list (string * string)) :
  label_sorted l -> label_sorted (insert_by_label x l).
Proof.
  induction 1 as [|y|y z l Hyz Hs IH]; simpl.
  - constructor.
  - destruct (String.ltb (snd y) (snd x)) eqn:E; constructor;
      try constructor; auto using ltb_leb, not_ltb_leb.
  - simpl in IH. destruct (String.ltb (snd y) (snd x)) eqn:E.
    + destruct (String.ltb (snd z) (snd x)) eqn:E'.
      * constructor; assumption.
      * constructor; [now apply ltb_leb|exact IH].
    + constructor; [now apply not_ltb_leb|]. constructor; assumption.
Qed.

Lemma sorted_by_label_sorted (l : list (string * string)) :
  label_sorted (sorted_by_label l).
Proof.
  induction l as [|x l IH]; simpl; [constructor|].
  apply insert_by_label_sorted, IH.
Qed.

Lemma insert_by_label_stable (lab : string) (x : string * string)
    (l : list (string * string)) :
  filter (fun p => String.eqb (snd p) lab) (insert_by_label x l) =
  filter (fun p => String.eqb (snd p) lab) (x :: l).
Proof.
  induction l as [|y l IH]; [reflexivity|]. cbn [insert_by_label].
  destruct (String.ltb (snd y) (snd x)) eqn:E; [|reflexivity].
  cbn [filter] in *. rewrite IH.
  destruct (String.eqb (snd x) lab) eqn:Ex;
    destruct (String.eqb (snd y) lab) eqn:Ey; try reflexivity.
  apply String.eqb_eq in Ex, Ey. rewrite Ex, Ey in E.
  unfold String.ltb in E. pose proof (String.compare_antisym lab lab) as C.
  destruct (String.compare lab lab); simpl in C;
    first [discriminate E|discriminate C].
Qed.

(** X11: [get_skills_list] returns exactly the pairs of a uri of the index
    and its label where that label is a string, in non-decreasing order of
    label, and pairs with the same label keep the order of the index. *)
Theorem skills_list_contract (skills : skills_table) :
  label_sorted (get_skills_list skills)
  /\ (forall uri label,
         In (uri, label) (get_skills_list skills) <->
         In uri (map fst skills) /\ loc_label skills uri = PyStr label)
  /\ (forall lab,
         filter (fun p => String.eqb (snd p) lab) (get_skills_list skills) =
         filter (fun p => String.eqb (snd p) lab) (labelled_skills skills)).
Proof.
  unfold get_skills_list. split; [apply sorted_by_label_sorted|]. split.
  - intros uri label. split.
    + intros H. apply (Permutation_in _ (sorted_by_label_perm _)) in H.
      unfold labelled_skills in H. apply in_flat_map in H.
      destruct H as [u [Hu H]].
      destruct (loc_label skills u) as [| | | |s| |] eqn:E; try contradiction.
      destruct H as [H|[]]. injection H as <- <-. auto.
    + intros [Hu Hl].
      apply (Permutation_in _ (Permutation_sym (sorted_by_label_perm _))).
      unfold labelled_skills. apply in_flat_map. exists uri.
      split; [exact Hu|]. rewrite Hl. now left.
  - intros lab. induction (labelled_skills skills) as [|x l IH];
      [reflexivity|].
    simpl sorted_by_label. rewrite insert_by_label_stable. simpl.
    now rewrite IH.
Qed.

(** ** Employees *)

Lemma filter_all {A : Type} (f : A -> bool) (l : list A) :
  (forall x, In x l -> f x = true) -> filter f l = l.
Proof.
  induction l as [|x l IH]; intros H; simpl; [reflexivity|].
  rewrite (H x (or_introl eq_refl)). f_equal. apply IH.
  intros y Hy. apply H. now right.
Qed.

(** X12: deleting the employee that was just saved gives back the frame as
    it was, provided the generated id was not already in use. *)
Theorem delete_after_save (employees : list employee) (st : session)
    (hex new_name : string) (new_skills : list string) :
  let saved := save_new_employee employees hex new_name new_skills in
  ~ In (snd saved) (map employee_id employees) ->
  fst (delete_employee (fst saved) st (snd saved)) = employees.
Proof.
  intros saved Hfresh. unfold saved, save_new_employee, delete_employee in *.
  cbn [fst snd] in *. rewrite filter_app. cbn [filter employee_id].
  rewrite String.eqb_refl. cbn [negb]. rewrite app_nil_r.
  apply filter_all. intros e He. apply negb_true_iff, String.eqb_neq.
  intros E. apply Hfresh. rewrite <- E. now apply in_map.
Qed.

Lemma delete_after_save_witness :
  let employees :=
    [ {| employee_id := "EMP0001"; emp_name := "Ada";
         emp_skills := None; years_of_experience := 3;
         emp_experience_level := "Senior" |} ] in
  let st := {| selected_employee := None; selected_occ := None |} in
  let saved := save_new_employee employees "3f2a9c1b77e04d5e" "Bob" ["s1"] in
  snd saved = "EMP3F2A9C1B" /\
  ~ In (snd saved) (map employee_id employees) /\
  fst (delete_employee (fst saved) st (snd saved)) = employees.
Proof.
  intros employees st saved.
  assert (~ In (snd saved) (map employee_id employees)) as H.
  { intros [E|[]]. vm_compute in E. discriminate E. }
  split; [reflexivity|]. split; [exact H|].
  exact (@delete_after_save employees st "3f2a9c1b77e04d5e" "Bob" ["s1"] H).
Defined.

(** X13: [delete_employee] keeps the selection sound: when the selected
    employee, if any, was a row of the frame, the selection left after the
    deletion is again a row of the remaining frame or empty; and no row with
    the deleted id remains. *)
Theorem delete_keeps_selection (employees : list employee) (st : session)
    (id : string) :
  selection_valid employees st ->
  selection_valid (fst (delete_employee employees st id))
    (snd (delete_employee employees st id))
  /\ ~ In id (map employee_id (fst (delete_employee employees st id))).
Proof.
  unfold selection_valid, delete_employee. cbn [fst snd]. intros H. split.
  - destruct (selected_employee st) as [sel|] eqn:Es; [|now rewrite Es].
    destruct (String.eqb sel id) eqn:E; [exact I|]. rewrite Es.
    apply in_map_iff in H. destruct H as [e [He Hin]].
    apply in_map_iff. exists e. split; [exact He|].
    apply filter_In. split; [exact Hin|]. now rewrite He, E.
  - intros Hin. apply in_map_iff in Hin. destruct Hin as [e [He Hin]].
    apply filter_In in Hin. destruct Hin as [_ Hne].
    rewrite He, String.eqb_refl in Hne. discriminate.
Qed.

Lemma delete_keeps_selection_witness :
  let employees :=
    [ {| employee_id := "EMP0001"; emp_name := "Ada";
         emp_skills := None; years_of_experience := 3;
         emp_experience_level := "Senior" |} ] in
  let st := {| selected_employee := Some "EMP0001";
               selected_occ := Some "occ" |} in
  selection_valid employees st /\
  snd (delete_employee employees st "EMP0001")
  = {| selected_employee := None; selected_occ := None |} /\
  selection_valid (fst (delete_employee employees st "EMP0001"))
    (snd (delete_employee employees st "EMP0001"))
  /\ ~ In "EMP0001"
         (map employee_id (fst (delete_employee employees st "EMP0001"))).
Proof.
  intros employees st.
  assert (selection_valid employees st) as H by (left; reflexivity).
  split; [exact H|]. split; [reflexivity|].
  exact (@delete_keeps_selection employees st "EMP0001" H).
Defined.

Lemma split_on_whole (sep : ascii) (s : string) :
  has_char sep s = false -> split_on sep s = [s].
Proof.
  induction s as [|c s IH]; simpl; [reflexivity|].
  intros H. apply orb_false_iff in H. destruct H as [Hc Hs].
  rewrite Hc, (IH Hs). reflexivity.
Qed.

Lemma split_on_append (sep : ascii) (x rest : string) :
  has_char sep x = false ->
  split_on sep (x ++ String sep rest) = x :: split_on sep rest.
Proof.
  induction x as [|c x IH]; simpl.
  - intros _. now rewrite Ascii.eqb_refl.
  - intros H. apply orb_false_iff in H. destruct H as [Hc Hx].
    rewrite Hc, (IH Hx). reflexivity.
Qed.

Lemma split_on_concat (sep : ascii) (l : list string) :
  l <> [] ->
  Forall (fun s => has_char sep s = false) l ->
  split_on sep (String.concat (String sep EmptyString) l) = l.
Proof.
  intros Hne H. induction H as [|x l Hx Hl IH]; [congruence|].
  destruct l as [|y l].
  - simpl. now apply split_on_whole.
  - change (String.concat (String sep "") (x :: y :: l))
      with (x ++ String sep (String.concat (String sep "") (y :: l)))%string.
    rewrite split_on_append by exact Hx. f_equal. apply IH. discriminate.
Qed.

(** X14: the skills of a saved employee are read back as they were chosen:
    for a non-empty selection of uris without [;], splitting the stored
    cell of the new row at [;] gives the selection again, and the new row
    is the last one and carries the returned id. *)
Theorem saved_skills_round_trip (employees : list employee)
    (hex new_name : string) (new_skills : list string) :
  new_skills <> [] ->
  Forall (fun s => has_char ";" s = false) new_skills ->
  exists e,
    fst (save_new_employee employees hex new_name new_skills)
    = employees ++ [e] /\
    employee_id e = snd (save_new_employee employees hex new_name new_skills)
    /\ stored_skills e = new_skills.
Proof.
  intros Hne H. unfold save_new_employee. cbn [fst snd].
  eexists. split; [reflexivity|]. split; [reflexivity|].
  unfold stored_skills. cbn [emp_skills].
  exact (@split_on_concat ";"%char new_skills Hne H).
Qed.

Lemma saved_skills_round_trip_witness :
  let uris := ["http://data.europa.eu/esco/skill/a1";
               "http://data.europa.eu/esco/skill/b2"] in
  uris <> [] /\
  Forall (fun s => has_char ";" s = false) uris /\
  exists e,
    fst (save_new_employee [] "3f2a9c1b77e04d5e" "Bob" uris) = [] ++ [e] /\
    employee_id e = snd (save_new_employee [] "3f2a9c1b77e04d5e" "Bob" uris)
    /\ stored_skills e = uris.
Proof.
  intros uris.
  assert (uris <> []) as H1 by discriminate.
  assert (Forall (fun s => has_char ";" s = false) uris) as H2
    by (repeat constructor).
  split; [exact H1|]. split; [exact H2|].
  exact (@saved_skills_round_trip [] "3f2a9c1b77e04d5e" "Bob" uris H1 H2).
Defined.

(** ** The groups of the profile tab *)

Lemma filter_length_le {A : Type} (f g : A -> bool) (l : list A) :
  (forall x, f x = true -> g x = true -> False) ->
  (length (filter f l) + length (filter g l) <= length l)%nat
  /\ ((length (filter f l) + length (filter g l) = length l)%nat <->
      Forall (fun x => f x = true \/ g x = true) l).
Proof.
  intros Hdisj. induction l as [|x l [IH1 IH2]]; simpl.
  - split; [lia|]. split; [constructor|reflexivity].
  - destruct (f x) eqn:Ef; destruct (g x) eqn:Eg; simpl.
    + exfalso. eauto.
    + split; [lia|]. split.
      * intros H. constructor; [now left|]. apply IH2. lia.
      * intros H. inversion H; subst. apply IH2 in H3. lia.
    + split; [lia|]. split.
      * intros H. constructor; [now right|]. apply IH2. lia.
      * intros H. inversion H; subst. apply IH2 in H3. lia.
    + split; [lia|]. split.
      * intros H. lia.
      * intros H. inversion H as [|? ? [Hx|Hx] ?]; subst; congruence.
Qed.

(** X15: the profile tab lists a missing skill as essential exactly when
    the scoring counts it twice, every skill it lists as optional counts
    once, no skill is listed in both groups, and the two groups together
    show all missing skills exactly when every level is "essential" or
    "optional": a skill of another level is scored with weight 1 and shown
    in neither group. *)
Theorem profile_groups (missing : list missing_skill) :
  (forall m, In m (essential_skills missing) <->
             In m missing /\ level_weight (occupation_skill_level m) = 2)
  /\ (forall m, In m (optional_skills missing) ->
                In m missing /\ level_weight (occupation_skill_level m) = 1)
  /\ (forall m, In m (essential_skills missing) ->
                ~ In m (optional_skills missing))
  /\ (length (essential_skills missing) + length (optional_skills missing)
      <= length missing)%nat
  /\ ((length (essential_skills missing) + length (optional_skills missing)
       = length missing)%nat <->
      Forall (fun m => occupation_skill_level m = "essential"
                       \/ occupation_skill_level m = "optional") missing).
Proof.
  unfold essential_skills, optional_skills.
  assert (forall m : missing_skill,
             String.eqb (occupation_skill_level m) "essential" = true ->
             String.eqb (occupation_skill_level m) "optional" = true -> False)
    as Hdisj.
  { intros m H1 H2. apply String.eqb_eq in H1, H2. congruence. }
  split; [|split; [|split]].
  - intros m. rewrite filter_In. unfold level_weight.
    destruct (String.eqb (occupation_skill_level m) "essential");
      intuition discriminate.
  - intros m H. apply filter_In in H. destruct H as [Hin H].
    split; [exact Hin|]. unfold level_weight.
    destruct (String.eqb (occupation_skill_level m) "essential") eqn:E;
      [exfalso; eauto|reflexivity].
  - intros m H1 H2. apply filter_In in H1, H2.
    destruct H1 as [_ H1]. destruct H2 as [_ H2]. eauto.
  - destruct (filter_length_le
                (fun m => String.eqb (occupation_skill_level m) "essential")
                (fun m => String.eqb (occupation_skill_level m) "optional")
                missing Hdisj) as [Hle Hiff].
    split; [exact Hle|]. rewrite Hiff. rewrite !Forall_forall.
    split; intros H m Hm; specialize (H m Hm);
      rewrite ?String.eqb_eq in *; exact H.
Qed.

(** ** Payloads of the data model *)

(** X16: with a content source that raises or answers with payloads of the
    data model ([None], or a dict whose ['elements'], where present, is a
    list of dicts with string names and descriptions) the aggregator does
    not raise, whatever the missing skills. *)
Theorem data_model_payloads_return (net : endpoint) (ms : list missing_skill)
    (top_k : Z) :
  wf_endpoint net ->
  exists l, fst (get_course_recommendations_cached (Ok ms) net top_k) = Ok l.
Proof.
  intros Hnet. rewrite aggregator_eq.
  destruct (wf_fetch_loop ms ms [] [] Hnet) as [all ->]. eauto.
Qed.

Lemma data_model_payloads_return_witness :
  wf_endpoint example_net /\
  exists l,
    fst (get_course_recommendations_cached (Ok [example_skill]) example_net 3)
    = Ok l.
Proof.
  assert (wf_endpoint example_net) as H by (intros q; reflexivity).
  split; [exact H|].
  exact (@data_model_payloads_return example_net [example_skill] 3 H).
Defined.

(** ** Rounding at the threshold and in the ranking *)

(** X17: the threshold is tested on the float.  For the skill "SQL" and the
    course "SQL for Data Scientists" described by "Learn SQL!" the two
    similarities are the floats of 3/13 and 6/13; the weighted sum of these
    fractions is 3/10, but the weighted score that the program computes is
    0.30000000000000004, above 0.3, so the skill is recorded with that
    score and the total is twice that score. *)
Theorem threshold_rounding :
  let cn := "sql for data scientists" in
  let cd := "learn sql!" in
  element_texts sql_course = Ok (cn, cd) /\
  similarity "sql" cn = binary64.rnd (3 # 13) /\
  similarity "sql" cd = binary64.rnd (6 # 13) /\
  (3 # 13) * (7 # 10) + (6 # 13) * (3 # 10) == 3 # 10 /\
  combined sql_skill cn cd = 1351079888211149 # 4503599627370496 /\
  3 # 10 < combined sql_skill cn cd /\
  matched cn cd sql_skill = true /\
  calculate_course_match_score (wrap sql_course) [sql_skill] =
  Ok (Scored (1351079888211149 # 2251799813685248)
        [ {| skill := "sql";
             score := 1351079888211149 # 4503599627370496;
             level := "essential" |} ]).
Proof.
  intros cn cd.
  split; [reflexivity|].
  split; [vm_compute; reflexivity|].
  split; [vm_compute; reflexivity|].
  split; [reflexivity|].
  split; [vm_compute; reflexivity|].
  split; [vm_compute; reflexivity|].
  split; [vm_compute; reflexivity|].
  vm_compute. reflexivity.
Qed.

(** X18: the ranking compares the float totals.  Against the skill "abx"
    the course "aaab" described by "aaa" and the course "a" described by
    "a" both have the weighted sum 1/2 in fractions, but the program
    computes 0.49999999999999994 for the first and 0.5 for the second, so
    the second course, fetched later, is listed first. *)
Theorem ranking_rounding :
  (4 # 7) * (7 # 10) + (1 # 3) * (3 # 10) == 1 # 2 /\
  (1 # 2) * (7 # 10) + (1 # 2) * (3 # 10) == 1 # 2 /\
  similarity "abx" "aaab" = binary64.rnd (4 # 7) /\
  similarity "abx" "aaa" = binary64.rnd (1 # 3) /\
  similarity "abx" "a" = binary64.rnd (1 # 2) /\
  combined tie_skill "aaab" "aaa" = 9007199254740991 # 18014398509481984 /\
  combined tie_skill "a" "a" = 1 # 2 /\
  exists r1 r2,
    fst (get_course_recommendations_cached (Ok [tie_skill]) tie_net 3)
    = Ok [r2; r1] /\
    course r1 = tie_course_1 /\ course r2 = tie_course_2 /\
    rec_score r1 = combined tie_skill "aaab" "aaa" /\
    rec_score r2 = combined tie_skill "a" "a" /\
    rec_score r1 < rec_score r2.
Proof.
  split; [reflexivity|]. split; [reflexivity|].
  split; [vm_compute; reflexivity|].
  split; [vm_compute; reflexivity|].
  split; [vm_compute; reflexivity|].
  split; [vm_compute; reflexivity|].
  split; [vm_compute; reflexivity|].
  eexists. eexists.
  split; [vm_compute; reflexivity|].
  split; [reflexivity|]. split; [reflexivity|].
  split; [vm_compute; reflexivity|]. split; [vm_compute; reflexivity|].
  vm_compute. reflexivity.
Qed.
